(** * GPTORIENTA: the chat view's stream consumption and the thread bootstrap route

    A shallow embedding of [src/app/components/chat.tsx] ([sendMessage],
    [appendMessage] and the state they touch) and of
    [src/app/api/assistants/threads/route.ts] ([POST]).

    JavaScript strings are sequences of UTF-16 code units: [str] is [list N].
    The platform functions the source calls ([String.prototype.split] with
    the pattern [\r?\n], [trim], [startsWith], [slice], [endsWith],
    [TextDecoder.decode] in stream mode, [JSON.parse], property access with
    and without optional chaining, truthiness, [for ... of], string
    concatenation) are written out after ECMA-262, ECMA-404 and the WHATWG
    Encoding standard.  The one thing left abstract is the decimal rendering
    of a number (it is floating point): [NumberToString] is a variable of the
    section below, and every theorem holds for every choice of it. *)

From Stdlib Require Import String Ascii.
From Stdlib Require Import List NArith Bool Arith Lia.
Import ListNotations.

Local Open Scope N_scope.
Local Open Scope list_scope.

(** ** Strings *)

Definition str := list N.

(** A string literal of the source, as code units. *)
Fixpoint lit (s : string) : str :=
  match s with
  | EmptyString => []
  | String c r => N_of_ascii c :: lit r
  end.

(** The same for text that holds double quotes: an apostrophe in [s] stands
    for a double quote (code unit 34). *)
Definition dq (s : string) : str :=
  map (fun c => if c =? 39 then 34 else c) (lit s).

Fixpoint str_eqb (a b : str) : bool :=
  match a, b with
  | [], [] => true
  | x :: a', y :: b' => (x =? y) && str_eqb a' b'
  | _, _ => false
  end.

(** [s.startsWith(p)] *)
Fixpoint startsWith (s p : str) {struct p} : bool :=
  match p, s with
  | [], _ => true
  | y :: p', x :: s' => (x =? y) && startsWith s' p'
  | _ :: _, [] => false
  end.

(** [s.slice(n)] for [0 <= n]. *)
Definition slice (s : str) (n : nat) : str := skipn n s.

(** [s.endsWith("\n")] *)
Definition endsWithNewline (s : str) : bool :=
  match rev s with
  | c :: _ => c =? 10
  | [] => false
  end.

(** ECMA-262 WhiteSpace and LineTerminator, the code units [trim] strips:
    TAB, LF, VT, FF, CR, SP, NBSP, U+1680, U+2000..U+200A, U+2028, U+2029,
    U+202F, U+205F, U+3000, U+FEFF. *)
Definition isWhiteSpace (c : N) : bool :=
  ((9 <=? c) && (c <=? 13)) || (c =? 32) || (c =? 160) || (c =? 5760)
  || ((8192 <=? c) && (c <=? 8202)) || (c =? 8232) || (c =? 8233)
  || (c =? 8239) || (c =? 8287) || (c =? 12288) || (c =? 65279).

Fixpoint trimStart (s : str) : str :=
  match s with
  | c :: r => if isWhiteSpace c then trimStart r else s
  | [] => []
  end.

Definition trimEnd (s : str) : str := rev (trimStart (rev s)).

(** [s.trim()] *)
Definition trim (s : str) : str := trimEnd (trimStart s).

(** Puts [c] in front of the first piece of a split. *)
Definition cons_head (c : N) (ls : list str) : list str :=
  match ls with
  | l :: r => (c :: l) :: r
  | [] => [[c]]
  end.

(** [s.split(/\r?\n/)]: the pieces between the matches of the pattern, a
    line feed with the carriage return just before it, if any.  The result is
    never empty; [""] splits into [[""]]. *)
Fixpoint split (s : str) : list str :=
  match s with
  | [] => [[]]
  | c :: r =>
      if c =? 10 then [] :: split r
      else if (c =? 13) && startsWith r [10] then split r
      else cons_head c (split r)
  end.

(** ** JSON values and [JSON.parse] *)

#[local] Set Warnings "-register-all".

Inductive json : Type :=
| JNull
| JBool (b : bool)
| JNum (lexeme : str)
| JStr (s : str)
| JArr (elems : list json)
| JObj (members : list (str * json)).

(** JSON white space: TAB, LF, CR, SP. *)
Definition isJsonWs (c : N) : bool :=
  (c =? 9) || (c =? 10) || (c =? 13) || (c =? 32).

Fixpoint skipWs (s : str) : str :=
  match s with
  | c :: r => if isJsonWs c then skipWs r else s
  | [] => []
  end.

Definition isDigit (c : N) : bool := (48 <=? c) && (c <=? 57).

Definition hexval (c : N) : option N :=
  if (48 <=? c) && (c <=? 57) then Some (c - 48)
  else if (65 <=? c) && (c <=? 70) then Some (c - 55)
  else if (97 <=? c) && (c <=? 102) then Some (c - 87)
  else None.

Definition hex4 (a b c d : N) : option N :=
  match hexval a, hexval b, hexval c, hexval d with
  | Some x, Some y, Some z, Some w => Some (((x * 16 + y) * 16 + z) * 16 + w)
  | _, _, _, _ => None
  end.

(** The characters of a string token after its opening quote, up to the
    closing one: the decoded string and what follows it. *)
Fixpoint parseChars (s : str) : option (str * str) :=
  match s with
  | [] => None
  | c :: r =>
      if c =? 34 then Some ([], r)
      else if c =? 92 then
        match r with
        | [] => None
        | e :: r1 =>
            let simple (u : N) :=
              match parseChars r1 with
              | Some (t, r') => Some (u :: t, r')
              | None => None
              end in
            if e =? 34 then simple 34
            else if e =? 92 then simple 92
            else if e =? 47 then simple 47
            else if e =? 98 then simple 8
            else if e =? 102 then simple 12
            else if e =? 110 then simple 10
            else if e =? 114 then simple 13
            else if e =? 116 then simple 9
            else if e =? 117 then
              match r1 with
              | h1 :: h2 :: h3 :: h4 :: r5 =>
                  match hex4 h1 h2 h3 h4, parseChars r5 with
                  | Some u, Some (t, r') => Some (u :: t, r')
                  | _, _ => None
                  end
              | _ => None
              end
            else None
        end
      else if c <? 32 then None
      else
        match parseChars r with
        | Some (t, r') => Some (c :: t, r')
        | None => None
        end
  end.

(** The longest run of digits in front of [s], and the rest. *)
Fixpoint spanDigits (s : str) : str * str :=
  match s with
  | c :: r =>
      if isDigit c then let (ds, r') := spanDigits r in (c :: ds, r')
      else ([], s)
  | [] => ([], [])
  end.

(** Whether [s] starts with the code unit [c]. *)
Definition headIs (c : N) (s : str) : bool :=
  match s with
  | x :: _ => x =? c
  | [] => false
  end.

(** The parts of a number token, each with what follows it: an optional
    minus sign; a single zero, or a digit from 1 to 9 followed by any
    digits; optionally a dot and one or more digits; optionally e or E, an
    optional sign and one or more digits. *)
Definition takeSign (s : str) : str * str :=
  if headIs 45 s then ([45], tl s) else ([], s).

Definition takeInt (s : str) : option (str * str) :=
  match s with
  | c :: r =>
      if c =? 48 then Some ([48], r)
      else if isDigit c then Some (spanDigits s)
      else None
  | [] => None
  end.

Definition takeFrac (s : str) : str * str :=
  if headIs 46 s then
    match spanDigits (tl s) with
    | ([], _) => ([], s)
    | (ds, r) => (46 :: ds, r)
    end
  else ([], s).

Definition takeExp (s : str) : str * str :=
  match s with
  | e :: r =>
      if (e =? 101) || (e =? 69) then
        let (sg, r1) :=
          if headIs 43 r || headIs 45 r then (firstn 1 r, tl r) else ([], r) in
        match spanDigits r1 with
        | ([], _) => ([], s)
        | (ds, r') => (e :: sg ++ ds, r')
        end
      else ([], s)
  | [] => ([], s)
  end.

(** A number token; the value kept is the token itself. *)
Definition parseNumber (s : str) : option (str * str) :=
  let (sign, s1) := takeSign s in
  match takeInt s1 with
  | None => None
  | Some (ip, s2) =>
      let (fp, s3) := takeFrac s2 in
      let (ep, s4) := takeExp s3 in
      Some (sign ++ ip ++ fp ++ ep, s4)
  end.

(** A value, the elements of an array after its first bracket, and the
    members of an object after its first brace.  The recursion is on
    [fuel]; [parse_fuel_enough] below shows that [2 * length s + 2] units
    are as good on [s] as any number of them. *)
Fixpoint parseValue (fuel : nat) (s : str) {struct fuel} : option (json * str) :=
  match fuel with
  | O => None
  | S f =>
      match skipWs s with
      | [] => None
      | c :: r =>
          if c =? 123 then
            if headIs 125 (skipWs r) then Some (JObj [], tl (skipWs r))
            else
              match parseMembers f r with
              | Some (ms, r') => Some (JObj ms, r')
              | None => None
              end
          else if c =? 91 then
            if headIs 93 (skipWs r) then Some (JArr [], tl (skipWs r))
            else
              match parseElements f r with
              | Some (vs, r') => Some (JArr vs, r')
              | None => None
              end
          else if c =? 34 then
            match parseChars r with
            | Some (t, r') => Some (JStr t, r')
            | None => None
            end
          else if startsWith (c :: r) (lit "true") then Some (JBool true, slice (c :: r) 4)
          else if startsWith (c :: r) (lit "false") then Some (JBool false, slice (c :: r) 5)
          else if startsWith (c :: r) (lit "null") then Some (JNull, slice (c :: r) 4)
          else
            match parseNumber (c :: r) with
            | Some (n, r') => Some (JNum n, r')
            | None => None
            end
      end
  end
with parseElements (fuel : nat) (s : str) {struct fuel} : option (list json * str) :=
  match fuel with
  | O => None
  | S f =>
      match parseValue f s with
      | None => None
      | Some (v, r) =>
          if headIs 44 (skipWs r) then
            match parseElements f (tl (skipWs r)) with
            | Some (vs, r') => Some (v :: vs, r')
            | None => None
            end
          else if headIs 93 (skipWs r) then Some ([v], tl (skipWs r))
          else None
      end
  end
with parseMembers (fuel : nat) (s : str) {struct fuel} : option (list (str * json) * str) :=
  match fuel with
  | O => None
  | S f =>
      if headIs 34 (skipWs s) then
        match parseChars (tl (skipWs s)) with
        | None => None
        | Some (k, r1) =>
            if headIs 58 (skipWs r1) then
              match parseValue f (tl (skipWs r1)) with
              | None => None
              | Some (v, r3) =>
                  if headIs 44 (skipWs r3) then
                    match parseMembers f (tl (skipWs r3)) with
                    | Some (ms, r5) => Some ((k, v) :: ms, r5)
                    | None => None
                    end
                  else if headIs 125 (skipWs r3) then Some ([(k, v)], tl (skipWs r3))
                  else None
              end
            else None
        end
      else None
  end.

(** [JSON.parse(s)]: [None] is the SyntaxError. *)
Definition JSON_parse (s : str) : option json :=
  match parseValue (2 * List.length s + 2) s with
  | Some (v, r) => match skipWs r with [] => Some v | _ => None end
  | None => None
  end.

(** ** The UTF-8 decoder of [new TextDecoder()] in stream mode

    The WHATWG UTF-8 decoder, one byte at a time.  A malformed sequence
    yields U+FFFD; the byte that ended it is decoded again from the start
    state.  The first code point of the stream is dropped when it is the
    byte order mark.  [decode(value, { stream: true })] never flushes, so an
    unfinished sequence at the end of the body yields nothing. *)

Record Utf8State : Type := mkUtf8 {
  codePoint : N;
  bytesSeen : N;
  bytesNeeded : N;
  lowerBoundary : N;
  upperBoundary : N;
  bomSeen : bool
}.

Definition newDecoder : Utf8State := mkUtf8 0 0 0 128 191 false.

Definition utf8Reset (d : Utf8State) : Utf8State :=
  mkUtf8 0 0 0 128 191 (bomSeen d).

(** The handler's step when no continuation byte is awaited: the new state
    and the code points decoded. *)
Definition utf8Lead (d : Utf8State) (b : N) : Utf8State * list N :=
  if b <=? 127 then (d, [b])
  else if (194 <=? b) && (b <=? 223) then
    (mkUtf8 (N.land b 31) 0 1 128 191 (bomSeen d), [])
  else if (224 <=? b) && (b <=? 239) then
    (mkUtf8 (N.land b 15) 0 2
       (if b =? 224 then 160 else 128) (if b =? 237 then 159 else 191)
       (bomSeen d), [])
  else if (240 <=? b) && (b <=? 244) then
    (mkUtf8 (N.land b 7) 0 3
       (if b =? 240 then 144 else 128) (if b =? 244 then 143 else 191)
       (bomSeen d), [])
  else (d, [65533]).

Definition utf8Handler (d : Utf8State) (b : N) : Utf8State * list N :=
  if bytesNeeded d =? 0 then utf8Lead d b
  else if (b <? lowerBoundary d) || (upperBoundary d <? b) then
    let (d', out) := utf8Lead (utf8Reset d) b in (d', 65533 :: out)
  else
    let cp := N.lor (N.shiftl (codePoint d) 6) (N.land b 63) in
    if bytesSeen d + 1 =? bytesNeeded d then (utf8Reset d, [cp])
    else (mkUtf8 cp (bytesSeen d + 1) (bytesNeeded d) 128 191 (bomSeen d), []).

(** A code point as UTF-16 code units. *)
Definition utf16 (cp : N) : str :=
  if cp <? 65536 then [cp]
  else [55296 + N.shiftr (cp - 65536) 10; 56320 + N.land (cp - 65536) 1023].

(** The decoded code points written to the output, the byte order mark
    dropped when it comes first. *)
Fixpoint serialize (seen : bool) (cps : list N) : bool * str :=
  match cps with
  | [] => (seen, [])
  | cp :: r =>
      let (seen', out) := serialize true r in
      if negb seen && (cp =? 65279) then (seen', out)
      else (seen', utf16 cp ++ out)
  end.

Definition decodeByte (d : Utf8State) (b : N) : Utf8State * str :=
  let (d1, cps) := utf8Handler d b in
  let (seen, out) := serialize (bomSeen d1) cps in
  (mkUtf8 (codePoint d1) (bytesSeen d1) (bytesNeeded d1)
     (lowerBoundary d1) (upperBoundary d1) seen, out).

(** [decoder.decode(value, { stream: true })] *)
Fixpoint decode (d : Utf8State) (value : list N) : Utf8State * str :=
  match value with
  | [] => (d, [])
  | b :: r =>
      let (d1, o1) := decodeByte d b in
      let (d2, o2) := decode d1 r in
      (d2, o1 ++ o2)
  end.

(** ** The chat view's state *)

Inductive Role : Type := user | assistant.

Record MessageType : Type := mkMessage { role : Role; text : str }.

Definition Role_eqb (a b : Role) : bool :=
  match a, b with
  | user, user | assistant, assistant => true
  | _, _ => false
  end.

(** The state hooks of [Chat] and the accumulator [assistantMessageRef].  A
    [threadId] that is [null] or [undefined] is [None].

    State updates are applied in program order.  React runs the updaters
    queued between two suspension points of [sendMessage] in the order they
    were queued, and the one updater that reads the accumulator is queued
    right after each [assistantMessageRef.current += content]; so at every
    suspension point the log is the one obtained by applying each updater
    where it is queued.  Calls of [sendMessage] are taken one after the
    other. *)
Record ChatState : Type := mkChat {
  userInput : str;
  messages : list MessageType;
  inputDisabled : bool;
  threadId : option str;
  assistantMessageRef : str
}.

Definition setUserInput (v : str) (st : ChatState) : ChatState :=
  mkChat v (messages st) (inputDisabled st) (threadId st) (assistantMessageRef st).

Definition setMessages (f : list MessageType -> list MessageType) (st : ChatState)
  : ChatState :=
  mkChat (userInput st) (f (messages st)) (inputDisabled st) (threadId st)
    (assistantMessageRef st).

Definition setInputDisabled (v : bool) (st : ChatState) : ChatState :=
  mkChat (userInput st) (messages st) v (threadId st) (assistantMessageRef st).

Definition setAssistantMessageRef (v : str) (st : ChatState) : ChatState :=
  mkChat (userInput st) (messages st) (inputDisabled st) (threadId st) v.

Definition setThreadId (v : option str) (st : ChatState) : ChatState :=
  mkChat (userInput st) (messages st) (inputDisabled st) v (assistantMessageRef st).

(** The state of the first render: the initial values of the hooks. *)
Definition initialChat : ChatState := mkChat [] [] false None [].

(** [appendMessage(role, text)] *)
Definition appendMessage (r : Role) (t : str) (st : ChatState) : ChatState :=
  setMessages (fun prevMessages => prevMessages ++ [mkMessage r t]) st.

(** The updater passed to [setMessages] for each content part: the last
    message is replaced when it is an assistant's, a new message is appended
    otherwise; [current] is [assistantMessageRef.current]. *)
Definition updateAssistant (current : str) (prevMessages : list MessageType)
  : list MessageType :=
  match rev prevMessages with
  | lastMessage :: _ =>
      if Role_eqb (role lastMessage) assistant
      then removelast prevMessages ++ [mkMessage assistant current]
      else prevMessages ++ [mkMessage assistant current]
  | [] => prevMessages ++ [mkMessage assistant current]
  end.

(** ** The thread bootstrap route, [route.ts]

    [JSON.stringify] of an object with one string member: the member's name
    and value are quoted as [QuoteJSONString] does.  A control character and
    a surrogate that has no partner are written as an escape, a surrogate
    pair is kept. *)

Definition hexDigit (d : N) : N := if d <? 10 then 48 + d else 87 + d.

Definition unicodeEscape (c : N) : str :=
  [92; 117; hexDigit (c / 4096); hexDigit ((c / 256) mod 16);
   hexDigit ((c / 16) mod 16); hexDigit (c mod 16)].

Definition isLeadSurrogate (c : N) : bool := (55296 <=? c) && (c <=? 56319).
Definition isTrailSurrogate (c : N) : bool := (56320 <=? c) && (c <=? 57343).

Definition quoteUnit (c : N) : str :=
  if c =? 8 then [92; 98]
  else if c =? 9 then [92; 116]
  else if c =? 10 then [92; 110]
  else if c =? 12 then [92; 102]
  else if c =? 13 then [92; 114]
  else if c =? 34 then [92; 34]
  else if c =? 92 then [92; 92]
  else if (c <? 32) || isLeadSurrogate c || isTrailSurrogate c then unicodeEscape c
  else [c].

Fixpoint quoteChars (s : str) : str :=
  match s with
  | [] => []
  | c :: r =>
      match r with
      | c' :: r' =>
          if isLeadSurrogate c && isTrailSurrogate c'
          then c :: c' :: quoteChars r'
          else quoteUnit c ++ quoteChars r
      | [] => quoteUnit c
      end
  end.

Definition QuoteJSONString (s : str) : str := 34 :: quoteChars s ++ [34].

(** [JSON.stringify({ key: value })] for a string [value]. *)
Definition JSON_stringify1 (key value : str) : str :=
  123 :: QuoteJSONString key ++ 58 :: QuoteJSONString value ++ [125].

Record Response : Type := mkResponse {
  status : N;
  contentType : str;
  body : str
}.

(** What [openai.beta.threads.create()] does: resolve to a thread, of which
    the handler reads the [id], or throw. *)
Inductive CreateThread : Type :=
| ThreadCreated (id : str)
| CreateThrows.

(** [POST] *)
Definition POST (external : CreateThread) : Response :=
  match external with
  | ThreadCreated id =>
      mkResponse 200 (lit "application/json") (JSON_stringify1 (lit "threadId") id)
  | CreateThrows =>
      mkResponse 500 (lit "application/json")
        (JSON_stringify1 (lit "error") (lit "Error interno del servidor."))
  end.

(** ** Data of the examples

    The lines of a stream as the message endpoint sends them, and a chat
    that holds a thread identifier. *)

Definition deltaLine (fragment : string) : str :=
  dq "data: {'event':'thread.message.delta','data':{'delta':{'content':[{'text':{'value':'"
  ++ lit fragment ++ dq "'}}]}}}".

Definition completedLine : str := dq "data: {'event':'thread.message.completed'}".

Definition doneLine : str := lit "data: [DONE]".

(** A line with its line feed. *)
Definition ln (line : str) : list N := line ++ [10].

(** The content part [{ text: { value: fragment } }]. *)
Definition textPart (fragment : string) : json :=
  JObj [(lit "text", JObj [(lit "value", JStr (lit fragment))])].

Definition exampleChat : ChatState :=
  mkChat (lit "hola") [] false (Some (lit "thread_1")) [].

(** The rendering of numbers used in the examples, none of which holds a
    number: a number prints as its token (which is what JavaScript prints
    for a token that is a plain integer of at most fifteen digits, other
    than a negative zero). *)
Definition tokenToString (lexeme : str) : str := lexeme.

(** ** Values read from a parsed line

    [None] is [undefined].  The source reads the properties [event], [data],
    [delta], [content], [text] and [value]; none of them is defined by a
    built-in prototype or by an array or a string, so a read finds either an
    own member of a parsed object or [undefined].  [JSON.parse] keeps the
    last of several members with one key. *)

Fixpoint lookupLast (k : str) (ms : list (str * json)) : option json :=
  match ms with
  | [] => None
  | (k', v) :: r =>
      match lookupLast k r with
      | Some w => Some w
      | None => if str_eqb k' k then Some v else None
      end
  end.

(** [v.k] for a [v] that is neither [null] nor [undefined]. *)
Definition getProp (v : json) (k : str) : option json :=
  match v with
  | JObj ms => lookupLast k ms
  | _ => None
  end.

(** [v?.k] *)
Definition optChain (v : option json) (k : str) : option json :=
  match v with
  | None | Some JNull => None
  | Some w => getProp w k
  end.

(** The pieces [for ... of] yields over a string: its code points, a
    surrogate pair being one piece. *)
Fixpoint codePoints (s : str) : list str :=
  match s with
  | [] => []
  | c :: r =>
      match r with
      | c' :: r' =>
          if isLeadSurrogate c && isTrailSurrogate c'
          then [c; c'] :: codePoints r'
          else [c] :: codePoints r
      | [] => [[c]]
      end
  end.

Fixpoint joinComma (ls : list str) : str :=
  match ls with
  | [] => []
  | [l] => l
  | l :: r => l ++ 44 :: joinComma r
  end.

Fixpoint sequence {A : Type} (l : list (option A)) : option (list A) :=
  match l with
  | [] => Some []
  | Some x :: r =>
      match sequence r with
      | Some xs => Some (x :: xs)
      | None => None
      end
  | None :: _ => None
  end.

Definition hasKey (k : str) (ms : list (str * json)) : bool :=
  existsb (fun m => str_eqb (fst m) k) ms.

(** ** The mount effect that asks for a thread

    [createThread]: what [fetch] of the bootstrap route gave, then
    [res.json()] and [setThreadId(data.threadId)].  The status of the
    response is not looked at.  A rejected [fetch], a body that is not JSON
    and a body that is [null] make the promise of [createThread] reject
    before anything is set.  The state hook is declared [string | null]:
    [None] is returned for a [threadId] member of another type (a number, a
    boolean, an array, an object), which the hook's type excludes. *)

Inductive ThreadsAnswer : Type :=
| NoAnswer
| Answer (res : Response).

Definition createThread (st : ChatState) (answer : ThreadsAnswer) : option ChatState :=
  match answer with
  | NoAnswer => Some st
  | Answer res =>
      match JSON_parse (body res) with
      | None | Some JNull => Some st
      | Some data =>
          match getProp data (lit "threadId") with
          | None | Some JNull => Some (setThreadId None st)
          | Some (JStr id) => Some (setThreadId (Some id) st)
          | Some _ => None
          end
      end
  end.

Section Chat.

(** [Number.prototype.toString] of the number a JSON number token denotes. *)
Variable NumberToString : str -> str.

(** Truthiness of a value; a number is falsy when it is zero, that is when
    it prints as [0]. *)
Definition truthy (v : option json) : bool :=
  match v with
  | None | Some JNull => false
  | Some (JBool b) => b
  | Some (JNum n) => negb (str_eqb (NumberToString n) (lit "0"))
  | Some (JStr s) => match s with [] => false | _ => true end
  | Some (JArr _) | Some (JObj _) => true
  end.

(** [ToString(v)] as string concatenation applies it; [None] is the
    TypeError.  An array is its elements joined by commas, [null] elements
    being empty.  An object parsed from JSON has no callable member, so it
    prints as [[object Object]] through [Object.prototype.toString], unless
    a member named [toString] hides that method: then no conversion is
    left. *)
Fixpoint ToString (v : json) : option str :=
  match v with
  | JNull => Some (lit "null")
  | JBool true => Some (lit "true")
  | JBool false => Some (lit "false")
  | JNum n => Some (NumberToString n)
  | JStr s => Some s
  | JArr vs =>
      match
        sequence
          (map (fun e => match e with JNull => Some [] | _ => ToString e end) vs)
      with
      | Some ls => Some (joinComma ls)
      | None => None
      end
  | JObj ms =>
      if hasKey (lit "toString") ms then None else Some (lit "[object Object]")
  end.

(** [part?.text?.value || ""] *)
Definition partContent (part : json) : json :=
  let v := optChain (optChain (Some part) (lit "text")) (lit "value") in
  match v with
  | Some w => if truthy v then w else JStr []
  | None => JStr []
  end.

(** What a block of the source did: it ran to its end, or it threw. *)
Inductive Completion : Type := Normal | Threw.

(** The body of the loop over the content parts, for one part. *)
Definition processPart (st : ChatState) (part : json) : ChatState * Completion :=
  match ToString (partContent part) with
  | None => (st, Threw)
  | Some content =>
      let st1 := setAssistantMessageRef (assistantMessageRef st ++ content) st in
      (setMessages (updateAssistant (assistantMessageRef st1)) st1, Normal)
  end.

Fixpoint processParts (st : ChatState) (parts : list json) : ChatState * Completion :=
  match parts with
  | [] => (st, Normal)
  | part :: r =>
      match processPart st part with
      | (st1, Normal) => processParts st1 r
      | (st1, Threw) => (st1, Threw)
      end
  end.

(** What [for (const part of contentParts)] iterates over; [None] when the
    value is not iterable. *)
Definition iterate (contentParts : json) : option (list json) :=
  match contentParts with
  | JArr vs => Some vs
  | JStr s => Some (map JStr (codePoints s))
  | _ => None
  end.

Definition isEvent (parsed : json) (name : str) : bool :=
  match getProp parsed (lit "event") with
  | Some (JStr e) => str_eqb e name
  | _ => false
  end.

(** [parsed.data?.delta?.content] for a [parsed] that is not [null]. *)
Definition deltaContent (parsed : json) : option json :=
  optChain (optChain (getProp parsed (lit "data")) (lit "delta")) (lit "content").

(** The statements of the [try] block after [JSON.parse] returned [parsed]. *)
Definition processEvent (st : ChatState) (parsed : json) : ChatState * Completion :=
  match parsed with
  | JNull => (st, Threw)
  | _ =>
      let content := deltaContent parsed in
      let r :=
        if isEvent parsed (lit "thread.message.delta") && truthy content then
          match content with
          | Some contentParts =>
              match iterate contentParts with
              | Some parts => processParts st parts
              | None => (st, Threw)
              end
          | None => (st, Normal)
          end
        else (st, Normal) in
      match r with
      | (st1, Normal) =>
          if isEvent parsed (lit "thread.message.completed")
          then (setInputDisabled false st1, Normal)
          else (st1, Normal)
      | (st1, Threw) => (st1, Threw)
      end
  end.

(** The line as the loop body sees it after [trim] and the removal of the
    prefix. *)
Definition stripData (line : str) : str :=
  if startsWith line (lit "data: ") then slice line (List.length (lit "data: "))
  else line.

(** One turn of [for (let line of lines)]: the state, the carry-over buffer,
    and whether the loop was left by [break]. *)
Definition processLine (st : ChatState) (buffer : str) (line0 : str)
  : ChatState * str * bool :=
  let line := trim line0 in
  match line with
  | [] => (st, buffer, false)
  | _ =>
      let line := stripData line in
      if str_eqb line (lit "[DONE]") then (setInputDisabled false st, buffer, true)
      else
        match JSON_parse line with
        | None => (st, line, false)
        | Some parsed =>
            match processEvent st parsed with
            | (st1, Normal) => (st1, buffer, false)
            | (st1, Threw) => (st1, line, false)
            end
        end
  end.

Fixpoint processLines (st : ChatState) (buffer : str) (lines : list str)
  : ChatState * str :=
  match lines with
  | [] => (st, buffer)
  | line :: r =>
      match processLine st buffer line with
      | (st1, buffer1, true) => (st1, buffer1)
      | (st1, buffer1, false) => processLines st1 buffer1 r
      end
  end.

(** The body of [while (true)] after a read that returned [value]: the text
    decoded so far is split, the piece after the last line break goes back
    to the buffer, the other pieces are processed. *)
Definition processText (st : ChatState) (buffer : str) (decoded : str)
  : ChatState * str :=
  let buffer := buffer ++ decoded in
  let lines := split buffer in
  if negb (endsWithNewline buffer)
  then processLines st (last lines []) (removelast lines)
  else processLines st [] lines.

(** What the reader of the response body does at the end: report [done], or
    reject. *)
Inductive StreamEnd : Type := EndOfBody | ReadError.

(** The read loop over the chunks the reader delivers. *)
Fixpoint readLoop (st : ChatState) (d : Utf8State) (buffer : str)
  (chunks : list (list N)) : ChatState :=
  match chunks with
  | [] => st
  | value :: r =>
      let (d1, decoded) := decode d value in
      let (st1, buffer1) := processText st buffer decoded in
      readLoop st1 d1 buffer1 r
  end.

(** What [fetch] does: reject, answer without a body, or answer with a body
    that delivers [chunks] and then ends. *)
Inductive FetchResult : Type :=
| FetchRejects
| NoBody
| Body (chunks : list (list N)) (ending : StreamEnd).

(** The request [sendMessage] posts: the thread of the URL and the
    [content] of the body. *)
Record Request : Type := mkRequest { reqThread : str; reqContent : str }.

(** The body of the request, [JSON.stringify({ content: text })], and its
    URL. *)
Definition requestBody (r : Request) : str :=
  JSON_stringify1 (lit "content") (reqContent r).

Definition requestUrl (r : Request) : str :=
  lit "/api/assistants/threads/" ++ reqThread r ++ lit "/messages".

(** [!text.trim()] *)
Definition isBlank (t : str) : bool :=
  match trim t with [] => true | _ => false end.

(** The statements of [sendMessage] between the guards and the [try]. *)
Definition beginSend (st : ChatState) (t : str) (displayUserMessage : bool)
  : ChatState :=
  let st1 := if displayUserMessage then appendMessage user t st else st in
  setInputDisabled true (setUserInput [] st1).

(** The [try] block with its [catch], and the final [setInputDisabled(false)].
    Whether the body ends or the read rejects, the chunks read before are
    processed, and the flag is cleared after the loop or after the handler. *)
Definition consume (st : ChatState) (net : FetchResult) : ChatState :=
  match net with
  | FetchRejects => setInputDisabled false st
  | NoBody => setInputDisabled false st
  | Body chunks _ =>
      setInputDisabled false
        (readLoop (setAssistantMessageRef [] st) newDecoder [] chunks)
  end.

(** [sendMessage(text, displayUserMessage)]: the state it leaves and the
    requests it issued.  [!threadId] holds of [null], [undefined] and the
    empty string. *)
Definition sendMessage (st : ChatState) (t : str) (displayUserMessage : bool)
  (net : FetchResult) : ChatState * list Request :=
  if isBlank t then (st, [])
  else
    match threadId st with
    | None | Some [] => (st, [])
    | Some tid =>
        (consume (beginSend st t displayUserMessage) net, [mkRequest tid t])
    end.

(** [handleSubmit]: the form submits the input text, displayed. *)
Definition handleSubmit (st : ChatState) (net : FetchResult)
  : ChatState * list Request :=
  sendMessage st (userInput st) true net.

(** [handleStartOrientation]: the payload stored under [formData], when
    there is one, is sent without being displayed. *)
Definition handleStartOrientation (st : ChatState) (formData : option str)
  (net : FetchResult) : ChatState * list Request :=
  match formData with
  | None | Some [] => (st, [])
  | Some payload => sendMessage st payload false net
  end.



(** ** Notions the statements below are written with *)

(** What the loop body takes a line for. *)
Inductive LineKind : Type :=
| Blank
| Terminator
| Unparsed (line : str)
| Event (line : str) (parsed : json).

Definition classify (line0 : str) : LineKind :=
  match trim line0 with
  | [] => Blank
  | c :: r =>
      let line := stripData (c :: r) in
      if str_eqb line (lit "[DONE]") then Terminator
      else
        match JSON_parse line with
        | None => Unparsed line
        | Some parsed => Event line parsed
        end
  end.

Definition isTerminator (line0 : str) : bool :=
  match classify line0 with Terminator => true | _ => false end.

(** The complete lines of a buffer, and the piece after its last line
    break. *)
Definition completeLines (s : str) : list str := removelast (split s).

Definition partialLine (s : str) : str := last (split s) [].

Definition emptyChat : ChatState := mkChat [] [] false None [].

(** Whether the statements after [JSON.parse] run to their end on [parsed]. *)
Definition eventCompletes (parsed : json) : bool :=
  match snd (processEvent emptyChat parsed) with
  | Normal => true
  | Threw => false
  end.

(** A line of the body before the terminator: blank, or a JSON value that
    is processed without a TypeError. *)
Definition frameLine (line0 : str) : bool :=
  match classify line0 with
  | Blank => true
  | Event _ parsed => eventCompletes parsed
  | Terminator | Unparsed _ => false
  end.

(** A line that is blank or the terminator. *)
Definition closingLine (line0 : str) : bool :=
  match classify line0 with
  | Blank | Terminator => true
  | Unparsed _ | Event _ _ => false
  end.

(** Frame lines, then possibly a terminator followed by nothing but blank
    lines and terminators. *)
Fixpoint framed (lines : list str) : bool :=
  match lines with
  | [] => true
  | l :: r => if frameLine l then framed r else forallb closingLine (l :: r)
  end.

(** The text a body decodes to as a whole. *)
Definition decodedBody (chunks : list (list N)) : str :=
  snd (decode newDecoder (concat chunks)).

Definition wellFramed (chunks : list (list N)) : bool :=
  framed (completeLines (decodedBody chunks)).

(** The text fragment of a content part: what [processPart] appends for it. *)
Definition fragment (part : json) : option str := ToString (partContent part).

(** The content parts of a content-delta event with a content array. *)
Definition deltaParts (parsed : json) : option (list json) :=
  if isEvent parsed (lit "thread.message.delta") then
    match deltaContent parsed with
    | Some (JArr parts) => Some parts
    | _ => None
    end
  else None.

(** The content parts an event brings: those of its content array when it
    is a content delta, none when it is another event (or a delta without a
    truthy content).  [None] stands for the shapes left aside: [null], and a
    content delta whose truthy content is not an array. *)
Definition eventParts (parsed : json) : option (list json) :=
  match parsed with
  | JNull => None
  | _ =>
      if isEvent parsed (lit "thread.message.delta") && truthy (deltaContent parsed)
      then deltaParts parsed
      else Some []
  end.

(** The content parts of some lines, in order of arrival, when every line
    is blank or an event as above. *)
Fixpoint lineParts (lines : list str) : option (list json) :=
  match lines with
  | [] => Some []
  | l :: r =>
      match classify l with
      | Blank => lineParts r
      | Event _ parsed =>
          match eventParts parsed, lineParts r with
          | Some ps, Some qs => Some (ps ++ qs)
          | _, _ => None
          end
      | Terminator | Unparsed _ => None
      end
  end.

(** How an operation may change the log: messages are appended, or the last
    message, an assistant's, is replaced by one or more messages.  Every
    other message stays in its place. *)
Definition keepsEarlier (before after : list MessageType) : Prop :=
  (exists tail, after = before ++ tail)
  \/ (exists earlier m tail,
        before = earlier ++ [m] /\ role m = assistant /\ tail <> []
        /\ after = earlier ++ tail).

(** The log without its last message when that is an assistant's: what the
    updater of [sendMessage] keeps of the log it is given. *)
Definition assistantSlot (log : list MessageType) : list MessageType :=
  match rev log with
  | lastMessage :: _ =>
      if Role_eqb (role lastMessage) assistant then removelast log else log
  | [] => log
  end.

(** The log is still [log0], or it is [log0] with one assistant message that
    holds the accumulator at its end, in the place of the assistant message
    [log0] ended with, if it did. *)
Definition showsAccumulator (log0 : list MessageType) (st : ChatState) : Prop :=
  messages st = log0
  \/ messages st = assistantSlot log0 ++ [mkMessage assistant (assistantMessageRef st)].

Definition userMessages (log : list MessageType) : list MessageType :=
  filter (fun m => Role_eqb (role m) user) log.

Definition assistantMessages (log : list MessageType) : list MessageType :=
  filter (fun m => Role_eqb (role m) assistant) log.

(** Whether a line makes the loop clear the disabled flag: the terminator,
    and an event named [thread.message.completed]. *)
Definition enablesInput (line0 : str) : bool :=
  match classify line0 with
  | Terminator => true
  | Event _ parsed => isEvent parsed (lit "thread.message.completed")
  | Blank | Unparsed _ => false
  end.

(** A text with every line feed turned into a carriage return and a line
    feed. *)
Definition crlf (s : str) : str :=
  flat_map (fun c => if c =? 10 then [13; 10] else [c]) s.

(** A piece of the text with the longer line ends, beside the piece of the
    text it was made from: the same, or with one carriage return more at
    its end. *)
Definition sameButCR (p q : str) : Prop := p = q \/ p = q ++ [13].

(** The read loop seen from the decoded text: the texts the decoder yields
    read by read, and the loop over them. *)
Fixpoint decodeChunks (d : Utf8State) (chunks : list (list N)) : list str :=
  match chunks with
  | [] => []
  | value :: r => let (d1, decoded) := decode d value in decoded :: decodeChunks d1 r
  end.

Fixpoint textLoop (st : ChatState) (buffer : str) (texts : list str) : ChatState :=
  match texts with
  | [] => st
  | decoded :: r =>
      let (st1, buffer1) := processText st buffer decoded in
      textLoop st1 buffer1 r
  end.

(** The state but for the disabled flag. *)
Definition logOf (st : ChatState) : str * list MessageType * option str * str :=
  (userInput st, messages st, threadId st, assistantMessageRef st).

(** ** Facts about the strings *)

Lemma trimStart_nil (t : str) :
  trimStart t = [] <-> forallb isWhiteSpace t = true.
Proof.
  induction t as [|c r IH]; simpl.
  - tauto.
  - destruct (isWhiteSpace c); simpl.
    + exact IH.
    + split; discriminate.
Qed.

Lemma trimStart_head (t : str) (c : N) (r : str) :
  trimStart t = c :: r -> isWhiteSpace c = false.
Proof.
  induction t as [|x t IH]; simpl.
  - discriminate.
  - destruct (isWhiteSpace x) eqn:E.
    + exact IH.
    + intros H. injection H as -> _. exact E.
Qed.

Lemma forallb_rev {A : Type} (f : A -> bool) (l : list A) :
  forallb f (rev l) = forallb f l.
Proof.
  induction l as [|x l IH]; simpl.
  - reflexivity.
  - rewrite forallb_app, IH. simpl. rewrite andb_true_r. apply andb_comm.
Qed.

(** [!text.trim()] holds exactly of the empty and the whitespace-only
    strings. *)
Lemma isBlank_whitespace (t : str) :
  isBlank t = true <-> forallb isWhiteSpace t = true.
Proof.
  unfold isBlank, trim, trimEnd. split.
  - intros H.
    destruct (rev (trimStart (rev (trimStart t)))) eqn:E; [|discriminate].
    apply (f_equal (@rev N)) in E. rewrite rev_involutive in E. simpl in E.
    apply trimStart_nil in E. rewrite forallb_rev in E.
    destruct (trimStart t) as [|c r] eqn:Et.
    + apply trimStart_nil. exact Et.
    + apply trimStart_head in Et. simpl in E. rewrite Et in E. discriminate.
  - intros H. apply trimStart_nil in H. rewrite H. reflexivity.
Qed.

Lemma isBlank_false (t : str) :
  forallb isWhiteSpace t = false -> isBlank t = false.
Proof.
  intros H. destruct (isBlank t) eqn:E; [|reflexivity].
  apply isBlank_whitespace in E. congruence.
Qed.

(** ** Submit *)

(** C4.  A text that is empty or holds white space only, and any text while
    no thread identifier is there, makes [sendMessage] return at once: the
    state (message log, disabled flag, input text) is the one it was called
    in, and no request is issued. *)
Theorem sendMessage_noop (st : ChatState) (t : str) (displayUserMessage : bool)
  (net : FetchResult) :
  forallb isWhiteSpace t = true \/ threadId st = None ->
  sendMessage st t displayUserMessage net = (st, []).
Proof.
  intros [H|H]; unfold sendMessage.
  - apply isBlank_whitespace in H. rewrite H. reflexivity.
  - rewrite H. destruct (isBlank t); reflexivity.
Qed.

(** C8, amended.  For a text that is not empty or whitespace-only and a
    thread identifier that is a non-empty string, [sendMessage] posts one
    request and consumes the answer from the state [beginSend] leaves: the
    log with one user message more (the log itself when the display is
    suppressed), the input text cleared, the disabled flag set. *)
Theorem sendMessage_begins (st : ChatState) (t : str) (displayUserMessage : bool)
  (net : FetchResult) (c : N) (tid : str) :
  forallb isWhiteSpace t = false ->
  threadId st = Some (c :: tid) ->
  sendMessage st t displayUserMessage net
    = (consume (beginSend st t displayUserMessage) net, [mkRequest (c :: tid) t])
  /\ messages (beginSend st t displayUserMessage)
      = messages st ++ (if displayUserMessage then [mkMessage user t] else [])
  /\ userInput (beginSend st t displayUserMessage) = []
  /\ inputDisabled (beginSend st t displayUserMessage) = true.
Proof.
  intros Ht Hid. unfold sendMessage. rewrite (isBlank_false _ Ht), Hid.
  repeat split.
  destruct displayUserMessage; simpl.
  - reflexivity.
  - symmetry. apply app_nil_r.
Qed.

Lemma consume_enables (st : ChatState) (net : FetchResult) :
  inputDisabled (consume st net) = false.
Proof. destruct net; reflexivity. Qed.

(** C6.  With a thread identifier that is a non-empty string, a text that
    is not empty makes [sendMessage] do one of two things.  When the text is
    more than white space, the request is issued, and whatever the network
    does then ([fetch] rejects, the response has no body, the body ends, a
    read fails; with or without a terminator among the lines read) the
    disabled flag is off when [sendMessage] returns.  When the text is
    white space only, no request is issued, so none of these events takes
    place. *)
Theorem sendMessage_enables (st : ChatState) (t : str) (displayUserMessage : bool)
  (net : FetchResult) (c : N) (tid : str) :
  t <> [] ->
  threadId st = Some (c :: tid) ->
  (forallb isWhiteSpace t = false ->
   snd (sendMessage st t displayUserMessage net) = [mkRequest (c :: tid) t]
   /\ inputDisabled (fst (sendMessage st t displayUserMessage net)) = false)
  /\ (forallb isWhiteSpace t = true ->
      snd (sendMessage st t displayUserMessage net) = []).
Proof.
  intros _ Hid. unfold sendMessage. split; intros Ht.
  - rewrite (isBlank_false _ Ht), Hid. split; [reflexivity|apply consume_enables].
  - apply isBlank_whitespace in Ht. rewrite Ht. reflexivity.
Qed.

(** The flag is off as soon as a request was issued. *)
Lemma sendMessage_request_enables (st : ChatState) (t : str)
  (displayUserMessage : bool) (net : FetchResult) :
  snd (sendMessage st t displayUserMessage net) <> [] ->
  inputDisabled (fst (sendMessage st t displayUserMessage net)) = false.
Proof.
  unfold sendMessage. destruct (isBlank t); [intros H; destruct H; reflexivity|].
  destruct (threadId st) as [[|c tid]|]; try (intros H; destruct H; reflexivity).
  intros _. apply consume_enables.
Qed.

(** ** The loop over the lines of a read *)

Lemma processLine_classify (st : ChatState) (buffer line0 : str) :
  processLine st buffer line0 =
  match classify line0 with
  | Blank => (st, buffer, false)
  | Terminator => (setInputDisabled false st, buffer, true)
  | Unparsed line => (st, line, false)
  | Event line parsed =>
      match processEvent st parsed with
      | (st1, Normal) => (st1, buffer, false)
      | (st1, Threw) => (st1, line, false)
      end
  end.
Proof.
  unfold processLine, classify.
  destruct (trim line0) as [|c r]; [reflexivity|].
  destruct (str_eqb (stripData (c :: r)) (lit "[DONE]")); [reflexivity|].
  destruct (JSON_parse (stripData (c :: r))); reflexivity.
Qed.

Lemma processLine_no_break (st : ChatState) (buffer line0 : str) :
  isTerminator line0 = false -> snd (processLine st buffer line0) = false.
Proof.
  unfold isTerminator. rewrite processLine_classify.
  destruct (classify line0); try reflexivity; try discriminate.
  intros _. destruct (processEvent st parsed) as [st1 [|]]; reflexivity.
Qed.

Lemma processLine_terminator (st : ChatState) (buffer line0 : str) :
  isTerminator line0 = true ->
  processLine st buffer line0 = (setInputDisabled false st, buffer, true).
Proof.
  unfold isTerminator. rewrite processLine_classify.
  destruct (classify line0); try discriminate. reflexivity.
Qed.

(** Lines before the first terminator are all processed. *)
Lemma processLines_app (st : ChatState) (buffer : str) (l1 l2 : list str) :
  existsb isTerminator l1 = false ->
  processLines st buffer (l1 ++ l2) =
  processLines (fst (processLines st buffer l1)) (snd (processLines st buffer l1)) l2.
Proof.
  revert st buffer.
  induction l1 as [|l r IH]; intros st buffer H; simpl in *.
  - reflexivity.
  - apply orb_false_iff in H. destruct H as [Hl Hr].
    pose proof (processLine_no_break st buffer l Hl) as Hb.
    destruct (processLine st buffer l) as [[st1 b1] brk]. simpl in Hb. subst brk.
    apply IH. exact Hr.
Qed.

Lemma first_terminator (lines : list str) :
  existsb isTerminator lines = true ->
  exists l1 d l2,
    lines = l1 ++ d :: l2 /\ existsb isTerminator l1 = false /\ isTerminator d = true.
Proof.
  induction lines as [|l r IH]; simpl.
  - discriminate.
  - destruct (isTerminator l) eqn:E.
    + intros _. exists [], l, r. auto.
    + simpl. intros H. destruct (IH H) as (l1 & d & l2 & -> & H1 & H2).
      exists (l :: l1), d, l2. simpl. rewrite E. auto.
Qed.

(** C5.  When some line of a batch is the terminator (after [trim] and the
    removal of the prefix), the batch is processed up to the first such
    line only: the lines [l1] before it are processed, whatever they are
    (refused by the parser or not), the flag is cleared, and the lines [l2]
    after it have no part in the result: any other lines in their place
    give the same state and buffer. *)
Theorem terminator_enables (st : ChatState) (buffer : str) (lines : list str) :
  existsb isTerminator lines = true ->
  inputDisabled (fst (processLines st buffer lines)) = false
  /\ exists l1 d l2,
      lines = l1 ++ d :: l2
      /\ existsb isTerminator l1 = false
      /\ isTerminator d = true
      /\ processLines st buffer lines
         = (setInputDisabled false (fst (processLines st buffer l1)),
            snd (processLines st buffer l1))
      /\ forall others,
          processLines st buffer (l1 ++ d :: others) = processLines st buffer lines.
Proof.
  intros H. destruct (first_terminator lines H) as (l1 & d & l2 & -> & H1 & H2).
  assert (E : forall others, processLines st buffer (l1 ++ d :: others)
              = (setInputDisabled false (fst (processLines st buffer l1)),
                 snd (processLines st buffer l1))).
  { intros others. rewrite processLines_app by exact H1. simpl.
    rewrite (processLine_terminator _ _ _ H2). reflexivity. }
  split.
  - rewrite E. reflexivity.
  - exists l1, d, l2. repeat split; auto.
    intros others. rewrite !E. reflexivity.
Qed.

(** ** Splitting a buffer that arrives in pieces *)

Lemma split_nonempty (s : str) : split s <> [].
Proof.
  induction s as [|c r IH]; cbn [split].
  - discriminate.
  - destruct (c =? 10); [discriminate|].
    destruct ((c =? 13) && startsWith r [10]); [exact IH|].
    destruct (split r); discriminate.
Qed.

Lemma startsWith_LF (r : str) :
  startsWith r [10] = true -> exists r', r = 10 :: r'.
Proof.
  destruct r as [|x r']; cbn [startsWith]; [discriminate|].
  intros H. apply andb_true_iff in H. destruct H as [H _].
  apply N.eqb_eq in H. subst x. exists r'. reflexivity.
Qed.

Lemma split_singleton (s p : str) : split s = [p] -> s = p.
Proof.
  revert p. induction s as [|c r IH]; intros p; cbn [split].
  - intros H. injection H as <-. reflexivity.
  - destruct (c =? 10) eqn:E10.
    + intros H. injection H as _ H. destruct (split_nonempty _ H).
    + destruct ((c =? 13) && startsWith r [10]) eqn:E13.
      * apply andb_true_iff in E13. destruct E13 as [_ E].
        destruct (startsWith_LF _ E) as [r' ->]. cbn [split]. rewrite N.eqb_refl.
        intros H. injection H as _ H. destruct (split_nonempty _ H).
      * destruct (split r) as [|p' [|q rest]] eqn:Er; cbn [cons_head]; intros H.
        -- destruct (split_nonempty _ Er).
        -- injection H as <-. f_equal. apply IH. reflexivity.
        -- discriminate.
Qed.

Lemma split_app (a b : str) :
  split (a ++ b) = removelast (split a) ++ split (last (split a) [] ++ b).
Proof.
  induction a as [|c a' IH].
  - reflexivity.
  - cbn [app split]. destruct (c =? 10) eqn:E10.
    + rewrite IH. pose proof (split_nonempty a') as Hne.
      destruct (split a') as [|p rest]; [congruence|]. reflexivity.
    + destruct a' as [|x a''].
      * cbn [app startsWith]. rewrite andb_false_r. cbn [split cons_head removelast last app].
        rewrite E10. reflexivity.
      * assert (Hs : startsWith ((x :: a'') ++ b) [10] = startsWith (x :: a'') [10]) by reflexivity.
        rewrite Hs. destruct ((c =? 13) && startsWith (x :: a'') [10]) eqn:E13.
        -- exact IH.
        -- rewrite IH. pose proof (split_nonempty (x :: a'')) as Hne.
           destruct (split (x :: a'')) as [|p [|q rest]] eqn:Er; [congruence| |].
           ++ apply split_singleton in Er. subst p.
              cbn [cons_head removelast last app split]. rewrite E10.
              change (startsWith (x :: a'' ++ b) [10]) with (startsWith (x :: a'') [10]).
              rewrite E13. reflexivity.
           ++ reflexivity.
Qed.

Lemma last_app_nonempty {A : Type} (l l' : list A) (d : A) :
  l' <> [] -> last (l ++ l') d = last l' d.
Proof.
  intros H. induction l as [|x l IH]; [reflexivity|].
  cbn [app last]. rewrite IH.
  destruct (l ++ l') eqn:E; [|reflexivity].
  apply app_eq_nil in E. destruct E as [_ E]. congruence.
Qed.

Lemma completeLines_app (a b : str) :
  completeLines (a ++ b) = completeLines a ++ completeLines (partialLine a ++ b).
Proof.
  unfold completeLines, partialLine. rewrite split_app.
  apply removelast_app. apply split_nonempty.
Qed.

Lemma partialLine_app (a b : str) :
  partialLine (a ++ b) = partialLine (partialLine a ++ b).
Proof.
  unfold partialLine. rewrite split_app.
  apply last_app_nonempty. apply split_nonempty.
Qed.

Lemma split_pieces (s : str) : Forall (fun p => ~ In 10 p) (split s).
Proof.
  induction s as [|c r IH]; cbn [split].
  - constructor; [tauto|constructor].
  - destruct (c =? 10) eqn:E10.
    + constructor; [tauto|exact IH].
    + destruct ((c =? 13) && startsWith r [10]); [exact IH|].
      apply N.eqb_neq in E10.
      destruct (split r) as [|p rest]; cbn [cons_head].
      * constructor; [|constructor]. simpl. intuition congruence.
      * inversion IH as [|? ? Hp Hrest]; subst. constructor; [|exact Hrest].
        simpl. intuition congruence.
Qed.

Lemma split_no_break (p : str) : ~ In 10 p -> split p = [p].
Proof.
  induction p as [|c r IH]; intros H; cbn [split].
  - reflexivity.
  - assert (Hc : c <> 10) by (intros ->; apply H; left; reflexivity).
    assert (Hr : ~ In 10 r) by (intros Hin; apply H; right; exact Hin).
    apply N.eqb_neq in Hc. rewrite Hc.
    assert (Hs : startsWith r [10] = false).
    { destruct (startsWith r [10]) eqn:E; [|reflexivity].
      destruct (startsWith_LF _ E) as [r' ->]. destruct Hr. left. reflexivity. }
    rewrite Hs, andb_false_r, (IH Hr). reflexivity.
Qed.

Lemma partialLine_no_break (s : str) : ~ In 10 (partialLine s).
Proof.
  unfold partialLine. pose proof (split_pieces s) as H.
  pose proof (split_nonempty s) as Hne.
  rewrite Forall_forall in H. apply H.
  destruct (split s) as [|p rest]; [congruence|].
  apply (@exists_last _ (p :: rest)) in Hne. destruct Hne as (l' & a & ->).
  rewrite last_last. apply in_or_app. right. left. reflexivity.
Qed.

Lemma split_ends_with_break (p : str) :
  exists ls, split (p ++ [10]) = ls ++ [[]] /\ ls <> [].
Proof.
  induction p as [|c r IH]; cbn [app split].
  - exists [[]]. split; [reflexivity|discriminate].
  - destruct IH as (ls & E & Hne). destruct (c =? 10).
    + exists ([] :: ls). rewrite E. split; [reflexivity|discriminate].
    + destruct ((c =? 13) && startsWith (r ++ [10]) [10]).
      * exists ls. auto.
      * rewrite E. destruct ls as [|l0 ls']; [congruence|].
        exists ((c :: l0) :: ls'). split; [reflexivity|discriminate].
Qed.

Lemma endsWithNewline_split (x : str) :
  endsWithNewline x = true -> split x = completeLines x ++ [[]].
Proof.
  unfold endsWithNewline, completeLines. intros H.
  destruct (rev x) as [|c r] eqn:E; [discriminate|].
  apply N.eqb_eq in H. subst c.
  apply (f_equal (@rev N)) in E. rewrite rev_involutive in E. simpl in E. subst x.
  destruct (split_ends_with_break (rev r)) as (ls & -> & _).
  rewrite removelast_last. reflexivity.
Qed.

Lemma processLines_blank_end (st : ChatState) (buffer : str) (lines : list str) :
  processLines st buffer (lines ++ [[]]) = processLines st buffer lines.
Proof.
  revert st buffer. induction lines as [|l r IH]; intros st buffer.
  - reflexivity.
  - cbn [app processLines].
    destruct (processLine st buffer l) as [[st1 b1] [|]]; [reflexivity|apply IH].
Qed.

(** One read: the complete lines of the buffer are processed, the piece
    after the last line break is what the buffer is set to before that. *)
Lemma processText_lines (st : ChatState) (buffer decoded : str) :
  processText st buffer decoded =
  processLines st (partialLine (buffer ++ decoded)) (completeLines (buffer ++ decoded)).
Proof.
  unfold processText.
  destruct (endsWithNewline (buffer ++ decoded)) eqn:E; cbn [negb].
  - unfold partialLine. rewrite (endsWithNewline_split _ E) at 1 2.
    rewrite last_last. apply processLines_blank_end.
  - reflexivity.
Qed.

(** ** Whether a line is processed to its end does not depend on the state *)

Lemma processPart_completion (st st' : ChatState) (part : json) :
  snd (processPart st part) = snd (processPart st' part).
Proof.
  unfold processPart. destruct (ToString (partContent part)); reflexivity.
Qed.

Lemma processParts_completion (parts : list json) (st st' : ChatState) :
  snd (processParts st parts) = snd (processParts st' parts).
Proof.
  revert st st'. induction parts as [|p r IH]; intros st st'; cbn [processParts].
  - reflexivity.
  - pose proof (processPart_completion st st' p) as H.
    destruct (processPart st p) as [s1 [|]], (processPart st' p) as [s2 [|]];
      simpl in H; try discriminate; [apply IH|reflexivity].
Qed.

Lemma processEvent_completion (st st' : ChatState) (parsed : json) :
  snd (processEvent st parsed) = snd (processEvent st' parsed).
Proof.
  unfold processEvent, deltaContent. destruct parsed; try reflexivity;
  match goal with
  | |- context [optChain (optChain (getProp ?v _) _) _] =>
      destruct (isEvent v (lit "thread.message.delta")
                && truthy (optChain (optChain (getProp v (lit "data")) (lit "delta"))
                             (lit "content")));
      [ destruct (optChain (optChain (getProp v (lit "data")) (lit "delta"))
                    (lit "content")) as [cp|];
        [ destruct (iterate cp) as [parts|];
          [ pose proof (processParts_completion parts st st') as H;
            destruct (processParts st parts) as [s1 [|]],
                     (processParts st' parts) as [s2 [|]];
            simpl in H; try discriminate |] |] |];
      try (destruct (isEvent v (lit "thread.message.completed")); reflexivity);
      try reflexivity
  end.
Qed.

Lemma frameLine_step (st : ChatState) (buffer line0 : str) :
  frameLine line0 = true ->
  processLine st buffer line0 = (fst (fst (processLine st [] line0)), buffer, false).
Proof.
  unfold frameLine. rewrite !processLine_classify.
  destruct (classify line0) as [| | |line parsed]; try discriminate; [reflexivity|].
  unfold eventCompletes. rewrite (processEvent_completion emptyChat st).
  destruct (processEvent st parsed) as [st1 [|]]; [reflexivity|discriminate].
Qed.

Lemma frameLine_not_terminator (line0 : str) :
  frameLine line0 = true -> isTerminator line0 = false.
Proof.
  unfold frameLine, isTerminator. destruct (classify line0); try reflexivity; discriminate.
Qed.

Lemma frameLines_no_terminator (lines : list str) :
  forallb frameLine lines = true -> existsb isTerminator lines = false.
Proof.
  induction lines as [|l r IH]; [reflexivity|]. cbn [forallb existsb].
  intros H. apply andb_true_iff in H. destruct H as [Hl Hr].
  rewrite (frameLine_not_terminator _ Hl), (IH Hr). reflexivity.
Qed.

(** Frame lines leave the buffer alone and are all processed. *)
Lemma frameLines_run (lines : list str) (st : ChatState) (buffer : str) :
  forallb frameLine lines = true ->
  processLines st buffer lines = (fst (processLines st [] lines), buffer).
Proof.
  revert st. induction lines as [|l r IH]; intros st H; [reflexivity|].
  cbn [forallb] in H. apply andb_true_iff in H. destruct H as [Hl Hr].
  cbn [processLines].
  rewrite (frameLine_step st buffer l Hl), (frameLine_step st [] l Hl).
  rewrite (IH _ Hr). reflexivity.
Qed.

Lemma closingLine_step (st : ChatState) (buffer line0 : str) :
  closingLine line0 = true ->
  processLine st buffer line0 = (st, buffer, false)
  \/ processLine st buffer line0 = (setInputDisabled false st, buffer, true).
Proof.
  unfold closingLine. rewrite processLine_classify.
  destruct (classify line0); try discriminate; auto.
Qed.

(** Blank lines and terminators leave the buffer and the log alone. *)
Lemma closingLines_run (lines : list str) (st : ChatState) (buffer : str) :
  forallb closingLine lines = true ->
  snd (processLines st buffer lines) = buffer
  /\ logOf (fst (processLines st buffer lines)) = logOf st.
Proof.
  revert st. induction lines as [|l r IH]; intros st H; [auto|].
  cbn [forallb] in H. apply andb_true_iff in H. destruct H as [Hl Hr].
  cbn [processLines].
  destruct (closingLine_step st buffer l Hl) as [E|E]; rewrite E.
  - apply IH. exact Hr.
  - auto.
Qed.

(** Lines that are blank, terminators, or values processed to their end
    leave the buffer alone. *)
Lemma quiet_lines_buffer (lines : list str) (st : ChatState) (buffer : str) :
  forallb (fun l => frameLine l || closingLine l) lines = true ->
  snd (processLines st buffer lines) = buffer.
Proof.
  revert st. induction lines as [|l r IH]; intros st H; [reflexivity|].
  cbn [forallb] in H. apply andb_true_iff in H. destruct H as [Hl Hr].
  cbn [processLines]. apply orb_true_iff in Hl. destruct Hl as [Hl|Hl].
  - rewrite (frameLine_step st buffer l Hl). apply IH. exact Hr.
  - destruct (closingLine_step st buffer l Hl) as [E|E]; rewrite E.
    + apply IH. exact Hr.
    + reflexivity.
Qed.

(** C9.  A line that is not blank after [trim], is not the terminator after
    the prefix is removed, and is refused by [JSON.parse], leaves the state
    (message log and disabled flag with it) as it was; the carry-over
    buffer becomes that line, whatever the buffer held, and the loop goes on
    to the next line.  When none of the later lines of the batch is refused
    or raises, the buffer still is that line when the batch is done, which
    is where the next read appends its text. *)
Theorem unparsed_line_replaces_buffer (st : ChatState) (buffer line0 : str)
  (later : list str) :
  trim line0 <> [] ->
  str_eqb (stripData (trim line0)) (lit "[DONE]") = false ->
  JSON_parse (stripData (trim line0)) = None ->
  processLine st buffer line0 = (st, stripData (trim line0), false)
  /\ (forallb (fun l => frameLine l || closingLine l) later = true ->
      snd (processLines st buffer (line0 :: later)) = stripData (trim line0)).
Proof.
  intros Hne Hdone Hparse.
  assert (E : processLine st buffer line0 = (st, stripData (trim line0), false)).
  { unfold processLine. destruct (trim line0) as [|c r]; [congruence|].
    rewrite Hdone, Hparse. reflexivity. }
  split; [exact E|].
  intros H. cbn [processLines]. rewrite E. apply quiet_lines_buffer. exact H.
Qed.

(** ** The read loop on a framed body *)

Lemma framed_parts (lines : list str) :
  framed lines = true ->
  exists l1 l2,
    lines = l1 ++ l2 /\ forallb frameLine l1 = true /\ forallb closingLine l2 = true.
Proof.
  induction lines as [|l r IH]; cbn [framed].
  - exists [], []. auto.
  - destruct (frameLine l) eqn:E.
    + intros H. destruct (IH H) as (l1 & l2 & -> & H1 & H2).
      exists (l :: l1), l2. cbn [forallb]. rewrite E, H1. auto.
    + intros H. exists [], (l :: r). auto.
Qed.

Lemma forallb_app_true {A : Type} (f : A -> bool) (l1 l2 : list A) :
  forallb f (l1 ++ l2) = true -> forallb f l1 = true /\ forallb f l2 = true.
Proof. rewrite forallb_app. apply andb_true_iff. Qed.

(** Whatever the reads cut the text into, the log the loop ends with is the
    one the frame lines [l1] give when they are processed in a row. *)
Lemma textLoop_framed (texts : list str) :
  forall (st : ChatState) (buffer : str) (l1 l2 : list str),
  completeLines buffer = [] -> partialLine buffer = buffer ->
  completeLines (buffer ++ concat texts) = l1 ++ l2 ->
  forallb frameLine l1 = true ->
  forallb closingLine l2 = true ->
  logOf (textLoop st buffer texts) = logOf (fst (processLines st [] l1)).
Proof.
  induction texts as [|t ts IH]; intros st buffer l1 l2 Hc Hp Hl H1 H2.
  - cbn [concat] in Hl. rewrite app_nil_r, Hc in Hl.
    symmetry in Hl. apply app_eq_nil in Hl. destruct Hl as [-> _]. reflexivity.
  - cbn [concat textLoop] in *. rewrite app_assoc, completeLines_app in Hl.
    rewrite processText_lines.
    set (b' := partialLine (buffer ++ t)) in *.
    assert (Hb' : split b' = [b']) by (apply split_no_break, partialLine_no_break).
    assert (Hc' : completeLines b' = []) by (unfold completeLines; rewrite Hb'; reflexivity).
    assert (Hp' : partialLine b' = b') by (unfold partialLine; rewrite Hb'; reflexivity).
    destruct (app_eq_app _ _ _ _ Hl) as [l [[E1 E2]|[E1 E2]]].
    + (* the batch holds all of l1 and the closing lines l *)
      rewrite E1. subst l2. apply forallb_app_true in H2. destruct H2 as [Hl2 HC].
      rewrite processLines_app by (apply frameLines_no_terminator; exact H1).
      rewrite (frameLines_run l1 st b' H1). cbn [fst snd].
      destruct (closingLines_run l (fst (processLines st [] l1)) b' Hl2) as [Hb Hlog].
      destruct (processLines (fst (processLines st [] l1)) b' l) as [st2 b2].
      cbn [fst snd] in Hb, Hlog. subst b2.
      rewrite (IH st2 b' [] _ Hc' Hp' eq_refl eq_refl HC). exact Hlog.
    + (* the batch holds frame lines only *)
      subst l1. apply forallb_app_true in H1. destruct H1 as [HB Hl1].
      rewrite (frameLines_run _ st b' HB).
      rewrite (IH _ b' l l2 Hc' Hp' E2 Hl1 H2).
      rewrite processLines_app by (apply frameLines_no_terminator; exact HB).
      rewrite (frameLines_run _ st [] HB). reflexivity.
Qed.

Lemma decode_app (a b : list N) (d : Utf8State) :
  decode d (a ++ b) =
  (fst (decode (fst (decode d a)) b), snd (decode d a) ++ snd (decode (fst (decode d a)) b)).
Proof.
  revert d. induction a as [|x a IH]; intros d; cbn [app decode].
  - cbn [fst snd app]. destruct (decode d b); reflexivity.
  - destruct (decodeByte d x) as [d1 o1]. rewrite IH.
    destruct (decode d1 a) as [d2 o2]. cbn [fst snd].
    rewrite app_assoc. reflexivity.
Qed.

(** The texts decoded read by read, put together, are the text the whole
    body decodes to. *)
Lemma decodeChunks_concat (chunks : list (list N)) (d : Utf8State) :
  concat (decodeChunks d chunks) = snd (decode d (concat chunks)).
Proof.
  revert d. induction chunks as [|v r IH]; intros d; cbn [decodeChunks concat].
  - reflexivity.
  - rewrite decode_app. destruct (decode d v) as [d1 o1]. cbn [concat fst snd].
    rewrite IH. reflexivity.
Qed.

Lemma readLoop_textLoop (chunks : list (list N)) (st : ChatState) (d : Utf8State)
  (buffer : str) :
  readLoop st d buffer chunks = textLoop st buffer (decodeChunks d chunks).
Proof.
  revert st d buffer. induction chunks as [|v r IH]; intros st d buffer;
    cbn [readLoop decodeChunks].
  - reflexivity.
  - destruct (decode d v) as [d1 o1]. cbn [textLoop].
    destruct (processText st buffer o1) as [st1 b1]. apply IH.
Qed.

(** The log a framed body leaves, however it is cut into reads. *)
Lemma readLoop_framed (chunks : list (list N)) (st : ChatState) (l1 l2 : list str) :
  completeLines (decodedBody chunks) = l1 ++ l2 ->
  forallb frameLine l1 = true ->
  forallb closingLine l2 = true ->
  logOf (readLoop st newDecoder [] chunks) = logOf (fst (processLines st [] l1)).
Proof.
  intros Hl H1 H2. rewrite readLoop_textLoop.
  apply (textLoop_framed _ st [] l1 l2); try reflexivity; try assumption.
  cbn [app]. rewrite decodeChunks_concat. exact Hl.
Qed.

Lemma decodedBody_single (chunks : list (list N)) :
  decodedBody [concat chunks] = decodedBody chunks.
Proof. unfold decodedBody. cbn [concat]. rewrite app_nil_r. reflexivity. Qed.

Lemma logOf_messages (st st' : ChatState) :
  logOf st = logOf st' -> messages st = messages st'.
Proof. unfold logOf. intros H. injection H. auto. Qed.

(** C1, amended.  For a body whose complete lines are first lines that are
    blank or parse to a value processed without a TypeError, then possibly
    a terminator followed by blank lines and terminators only, the message
    log [sendMessage] leaves is the same whether the bytes arrive in one
    read or cut into any reads. *)
Theorem chunking_invariant (st : ChatState) (t : str) (displayUserMessage : bool)
  (chunks : list (list N)) (ending : StreamEnd) :
  wellFramed chunks = true ->
  messages (fst (sendMessage st t displayUserMessage (Body chunks ending)))
  = messages (fst (sendMessage st t displayUserMessage (Body [concat chunks] ending))).
Proof.
  intros H. unfold sendMessage.
  destruct (isBlank t); [reflexivity|].
  destruct (threadId st) as [[|c tid]|]; try reflexivity.
  cbn [fst consume]. unfold wellFramed in H.
  destruct (framed_parts _ H) as (l1 & l2 & Hl & H1 & H2).
  change (messages (setInputDisabled false ?s)) with (messages s).
  apply logOf_messages.
  rewrite (readLoop_framed chunks _ l1 l2 Hl H1 H2).
  rewrite (readLoop_framed [concat chunks] _ l1 l2); try assumption; try reflexivity.
  rewrite decodedBody_single. exact Hl.
Qed.

(** ** Content deltas *)

Lemma str_eqb_eq (a b : str) : str_eqb a b = true -> a = b.
Proof.
  revert b. induction a as [|x a IH]; intros [|y b]; cbn [str_eqb]; try discriminate.
  - reflexivity.
  - intros H. apply andb_true_iff in H. destruct H as [H1 H2].
    apply N.eqb_eq in H1. rewrite (IH _ H2), H1. reflexivity.
Qed.

Lemma isEvent_delta_not_completed (parsed : json) :
  isEvent parsed (lit "thread.message.delta") = true ->
  isEvent parsed (lit "thread.message.completed") = false.
Proof.
  unfold isEvent. destruct (getProp parsed (lit "event")) as [[| | |e| |]|];
    try discriminate.
  intros H. apply str_eqb_eq in H. subst e. reflexivity.
Qed.

Lemma updateAssistant_last (current : str) (prevMessages : list MessageType) :
  exists earlier, updateAssistant current prevMessages
                  = earlier ++ [mkMessage assistant current].
Proof.
  unfold updateAssistant. destruct (rev prevMessages) as [|lastMessage r].
  - exists prevMessages. reflexivity.
  - destruct (Role_eqb (role lastMessage) assistant); eauto.
Qed.

Lemma processPart_fragment (st : ChatState) (part : json) (f : str) :
  fragment part = Some f ->
  processPart st part
  = (setMessages (updateAssistant (assistantMessageRef st ++ f))
       (setAssistantMessageRef (assistantMessageRef st ++ f) st), Normal).
Proof. unfold fragment, processPart. intros ->. reflexivity. Qed.

Lemma sequence_cons {A : Type} (x : option A) (l : list (option A)) (ys : list A) :
  sequence (x :: l) = Some ys ->
  exists y r, x = Some y /\ sequence l = Some r /\ ys = y :: r.
Proof.
  cbn [sequence]. destruct x as [y|]; [|discriminate].
  destruct (sequence l) as [r|]; [|discriminate].
  intros H. injection H as <-. eauto.
Qed.

Lemma sequence_app {A : Type} (l1 l2 : list (option A)) (ys : list A) :
  sequence (l1 ++ l2) = Some ys ->
  exists r1 r2, sequence l1 = Some r1 /\ sequence l2 = Some r2 /\ ys = r1 ++ r2.
Proof.
  revert ys. induction l1 as [|x l1 IH]; intros ys H.
  - exists [], ys. auto.
  - cbn [app] in H. apply sequence_cons in H. destruct H as (y & r & -> & Hr & ->).
    destruct (IH _ Hr) as (r1 & r2 & E1 & E2 & ->).
    exists (y :: r1), r2. cbn [sequence]. rewrite E1. auto.
Qed.

(** The loop over the parts of one event, when every fragment has a string
    conversion: the accumulator grows by the fragments in order, and once a
    part was processed the log ends with the assistant message that holds
    the accumulator. *)
Lemma processParts_defined (parts : list json) :
  forall (st : ChatState) (frags : list str),
  sequence (map fragment parts) = Some frags ->
  snd (processParts st parts) = Normal
  /\ assistantMessageRef (fst (processParts st parts))
     = assistantMessageRef st ++ concat frags
  /\ inputDisabled (fst (processParts st parts)) = inputDisabled st
  /\ (parts = [] -> fst (processParts st parts) = st)
  /\ (parts <> [] ->
      exists earlier,
        messages (fst (processParts st parts))
        = earlier ++ [mkMessage assistant (assistantMessageRef (fst (processParts st parts)))]).
Proof.
  induction parts as [|p r IH]; intros st frags H.
  - injection H as <-. cbn [processParts fst snd concat]. rewrite app_nil_r.
    repeat split; congruence.
  - cbn [map] in H. apply sequence_cons in H. destruct H as (f & fs & Hf & Hfs & ->).
    cbn [processParts]. rewrite (processPart_fragment st p f Hf).
    set (st1 := setMessages _ _).
    destruct (IH st1 fs Hfs) as (Hn & Ha & Hd & He & Hm).
    repeat split.
    + exact Hn.
    + rewrite Ha. cbn [concat]. subst st1. cbn. rewrite app_assoc. reflexivity.
    + rewrite Hd. reflexivity.
    + discriminate.
    + intros _. destruct r as [|q r'].
      * cbn [processParts fst]. subst st1. cbn.
        apply updateAssistant_last.
      * apply Hm. discriminate.
Qed.

Lemma deltaParts_event (st : ChatState) (parsed : json) (parts : list json) :
  deltaParts parsed = Some parts ->
  snd (processParts st parts) = Normal ->
  processEvent st parsed = (fst (processParts st parts), Normal).
Proof.
  unfold deltaParts, processEvent.
  destruct (isEvent parsed (lit "thread.message.delta")) eqn:Ed; [|discriminate].
  rewrite (isEvent_delta_not_completed _ Ed).
  destruct (deltaContent parsed) as [[| | | |ps|]|] eqn:Ec; try discriminate.
  intros H. injection H as ->. intros Hn.
  destruct parsed; try discriminate; cbn [andb truthy iterate];
    destruct (processParts st parts) as [st1 [|]]; try discriminate; reflexivity.
Qed.

(** An event of the shapes [eventParts] covers is processed to its end
    when its fragments have string conversions; but for the disabled flag,
    it does what the loop over its parts does. *)
Lemma eventParts_event (st : ChatState) (parsed : json) (parts : list json)
  (frags : list str) :
  eventParts parsed = Some parts ->
  sequence (map fragment parts) = Some frags ->
  snd (processEvent st parsed) = Normal
  /\ logOf (fst (processEvent st parsed)) = logOf (fst (processParts st parts)).
Proof.
  intros He Hf. unfold eventParts in He.
  destruct (processParts_defined parts st frags Hf) as (Hn & _).
  destruct (isEvent parsed (lit "thread.message.delta") && truthy (deltaContent parsed))
    eqn:Ed.
  - assert (Hd : deltaParts parsed = Some parts) by (destruct parsed; congruence).
    rewrite (deltaParts_event st parsed parts Hd Hn). auto.
  - assert (Hp : parts = []) by (destruct parsed; congruence). subst parts.
    unfold processEvent. fold (deltaContent parsed).
    destruct parsed; try discriminate; rewrite Ed;
      match goal with |- context [isEvent ?v (lit "thread.message.completed")] =>
        destruct (isEvent v (lit "thread.message.completed")) end; auto.
Qed.

Lemma logOf_fields (st st' : ChatState) :
  logOf st = logOf st' ->
  messages st = messages st' /\ assistantMessageRef st = assistantMessageRef st'.
Proof. unfold logOf. intros H. injection H. auto. Qed.

(** Lines that are blank or events, processed in a row. *)
Lemma lineParts_run (lines : list str) :
  forall (st : ChatState) (parts : list json) (frags : list str),
  lineParts lines = Some parts ->
  sequence (map fragment parts) = Some frags ->
  forallb frameLine lines = true
  /\ assistantMessageRef (fst (processLines st [] lines))
     = assistantMessageRef st ++ concat frags
  /\ (parts = [] -> logOf (fst (processLines st [] lines)) = logOf st)
  /\ (parts <> [] ->
      exists earlier,
        messages (fst (processLines st [] lines))
        = earlier
          ++ [mkMessage assistant (assistantMessageRef (fst (processLines st [] lines)))]).
Proof.
  induction lines as [|l r IH]; intros st parts frags Hp Hf.
  - injection Hp as <-. injection Hf as <-. cbn. rewrite app_nil_r.
    repeat split; congruence.
  - cbn [lineParts] in Hp. cbn [forallb processLines].
    unfold frameLine at 1. rewrite processLine_classify.
    destruct (classify l) as [| | |line parsed]; try discriminate.
    + destruct (IH st parts frags Hp Hf) as (H1 & H2 & H3 & H4). auto.
    + destruct (eventParts parsed) as [ps|] eqn:Ed; [|discriminate].
      destruct (lineParts r) as [qs|] eqn:Er; [|discriminate].
      injection Hp as <-. rewrite map_app in Hf.
      apply sequence_app in Hf. destruct Hf as (fs & gs & Hfs & Hgs & ->).
      destruct (eventParts_event emptyChat parsed ps fs Ed Hfs) as (Hn0 & _).
      destruct (eventParts_event st parsed ps fs Ed Hfs) as (Hn & Hlog).
      destruct (processParts_defined ps st fs Hfs) as (_ & Ha & _ & He & Hm).
      unfold eventCompletes. rewrite Hn0.
      destruct (processEvent st parsed) as [st1 cpl]. cbn [fst snd] in Hn, Hlog.
      subst cpl. destruct (logOf_fields _ _ Hlog) as [Hmsg Hacc].
      destruct (IH st1 qs gs eq_refl Hgs) as (H1 & H2 & H3 & H4).
      repeat split.
      * exact H1.
      * rewrite H2, Hacc, Ha, concat_app, app_assoc. reflexivity.
      * intros E. apply app_eq_nil in E. destruct E as [-> ->].
        rewrite (H3 eq_refl), Hlog, (He eq_refl). reflexivity.
      * intros Hne. destruct qs as [|q qs'].
        -- destruct (logOf_fields _ _ (H3 eq_refl)) as [Hmsg' Hacc'].
           rewrite Hmsg', Hacc', Hmsg, Hacc. apply Hm.
           rewrite app_nil_r in Hne. exact Hne.
        -- apply H4. discriminate.
Qed.

(** C3.  In one stream whose lines are blank lines, content-delta events
    with content arrays and events of other kinds, followed at most by
    terminators and blank lines, and with at least one content part: when
    [sendMessage] returns, the log ends with an assistant message whose
    text is the fragments of all the content parts, concatenated in the
    order of arrival; the accumulator holds the same text, and the input
    is enabled again.  This holds however the bytes are cut into reads. *)
Theorem deltas_accumulate (st : ChatState) (t : str) (displayUserMessage : bool)
  (c : N) (tid : str) (chunks : list (list N)) (ending : StreamEnd)
  (l1 l2 : list str) (parts : list json) (frags : list str) :
  forallb isWhiteSpace t = false ->
  threadId st = Some (c :: tid) ->
  completeLines (decodedBody chunks) = l1 ++ l2 ->
  lineParts l1 = Some parts ->
  forallb closingLine l2 = true ->
  sequence (map fragment parts) = Some frags ->
  parts <> [] ->
  (exists earlier,
     messages (fst (sendMessage st t displayUserMessage (Body chunks ending)))
     = earlier ++ [mkMessage assistant (concat frags)])
  /\ assistantMessageRef (fst (sendMessage st t displayUserMessage (Body chunks ending)))
     = concat frags
  /\ inputDisabled (fst (sendMessage st t displayUserMessage (Body chunks ending)))
     = false.
Proof.
  intros Ht Hid Hl Hp H2 Hf Hne.
  unfold sendMessage. rewrite (isBlank_false _ Ht), Hid. cbn [fst consume].
  set (st0 := setAssistantMessageRef [] (beginSend st t displayUserMessage)).
  destruct (lineParts_run l1 st0 parts frags Hp Hf) as (H1 & Ha & _ & Hm).
  pose proof (readLoop_framed chunks st0 l1 l2 Hl H1 H2) as Hlog.
  unfold logOf in Hlog. injection Hlog as _ Hmsg _ Hacc.
  destruct (Hm Hne) as [earlier He].
  change (assistantMessageRef st0) with (@nil N) in Ha. cbn [app] in Ha.
  repeat split.
  - exists earlier.
    change (messages (setInputDisabled false ?s)) with (messages s).
    rewrite Hmsg, He, Ha. reflexivity.
  - change (assistantMessageRef (setInputDisabled false ?s)) with (assistantMessageRef s).
    rewrite Hacc, Ha. reflexivity.
Qed.

(** ** Events of other shapes *)

Lemma setAssistantMessageRef_same (st : ChatState) :
  setAssistantMessageRef (assistantMessageRef st) st = st.
Proof. destruct st; reflexivity. Qed.

(** C10, amended.  For a parsed value other than [null]:  an event that is
    not a content delta with a truthy content is processed to its end and
    leaves the log and the accumulator as they were;  a content delta whose
    content is an array is processed to its end when every fragment has a
    string conversion;  and a content part without a truthy text value has
    the empty fragment, so that its turn of the loop leaves the accumulator
    as it was and ends normally. *)
Theorem event_processing (st : ChatState) :
  (forall parsed,
     parsed <> JNull ->
     isEvent parsed (lit "thread.message.delta") && truthy (deltaContent parsed) = false ->
     processEvent st parsed
     = (if isEvent parsed (lit "thread.message.completed")
        then setInputDisabled false st else st, Normal))
  /\ (forall parsed parts frags,
        deltaParts parsed = Some parts ->
        sequence (map fragment parts) = Some frags ->
        snd (processEvent st parsed) = Normal)
  /\ (forall part,
        truthy (optChain (optChain (Some part) (lit "text")) (lit "value")) = false ->
        fragment part = Some []
        /\ processPart st part
           = (setMessages (updateAssistant (assistantMessageRef st)) st, Normal)).
Proof.
  repeat split.
  - intros parsed Hn H. unfold processEvent.
    destruct parsed; try congruence; rewrite H;
      match goal with |- context [isEvent ?v (lit "thread.message.completed")] =>
        destruct (isEvent v (lit "thread.message.completed")) end; reflexivity.
  - intros parsed parts frags Hd Hf.
    destruct (processParts_defined parts st frags Hf) as (Hn & _).
    rewrite (deltaParts_event st parsed parts Hd Hn). reflexivity.
  - unfold fragment, partContent. rewrite H.
    destruct (optChain (optChain (Some part) (lit "text")) (lit "value")); reflexivity.
  - assert (Hf : fragment part = Some []).
    { unfold fragment, partContent. rewrite H.
      destruct (optChain (optChain (Some part) (lit "text")) (lit "value")); reflexivity. }
    rewrite (processPart_fragment st part [] Hf), app_nil_r,
      setAssistantMessageRef_same. reflexivity.
Qed.

(** ** What every operation keeps of the log *)

Lemma keepsEarlier_refl (ms : list MessageType) : keepsEarlier ms ms.
Proof. left. exists []. symmetry. apply app_nil_r. Qed.

Lemma keepsEarlier_trans (a b c : list MessageType) :
  keepsEarlier a b -> keepsEarlier b c -> keepsEarlier a c.
Proof.
  intros [[t1 ->]|(e & m & t1 & -> & Hm & Ht1 & ->)]
         [[t2 ->]|(e' & m' & t2 & Hb & Hm' & Ht2 & ->)].
  - left. exists (t1 ++ t2). symmetry. apply app_assoc.
  - destruct t1 as [|x t1] using rev_ind.
    + rewrite app_nil_r in Hb. subst a. right. exists e', m', t2. auto.
    + rewrite app_assoc in Hb. apply app_inj_tail in Hb. destruct Hb as [<- _].
      left. exists (t1 ++ t2). symmetry. apply app_assoc.
  - right. exists e, m, (t1 ++ t2). repeat split; auto.
    + intros E. apply app_eq_nil in E. tauto.
    + symmetry. apply app_assoc.
  - destruct t1 as [|x t1] using rev_ind; [congruence|].
    rewrite app_assoc in Hb. apply app_inj_tail in Hb. destruct Hb as [<- _].
    right. exists e, m, (t1 ++ t2). repeat split; auto.
    + intros E. apply app_eq_nil in E. tauto.
    + symmetry. apply app_assoc.
Qed.

Lemma updateAssistant_keeps (current : str) (ms : list MessageType) :
  keepsEarlier ms (updateAssistant current ms).
Proof.
  unfold updateAssistant. destruct ms as [|x ms] using rev_ind.
  - left. exists [mkMessage assistant current]. reflexivity.
  - rewrite rev_app_distr. cbn [rev app].
    destruct (Role_eqb (role x) assistant) eqn:E.
    + right. exists ms, x, [mkMessage assistant current].
      rewrite removelast_last. repeat split; try discriminate.
      destruct (role x); [discriminate|reflexivity].
    + left. exists [mkMessage assistant current]. reflexivity.
Qed.

Lemma processParts_keeps (parts : list json) (st : ChatState) :
  keepsEarlier (messages st) (messages (fst (processParts st parts))).
Proof.
  revert st. induction parts as [|p r IH]; intros st; cbn [processParts].
  - apply keepsEarlier_refl.
  - unfold processPart. destruct (ToString (partContent p)) as [content|].
    + eapply keepsEarlier_trans; [|apply IH]. apply updateAssistant_keeps.
    + apply keepsEarlier_refl.
Qed.

Lemma processEvent_keeps (st : ChatState) (parsed : json) :
  keepsEarlier (messages st) (messages (fst (processEvent st parsed))).
Proof.
  unfold processEvent. destruct parsed; try apply keepsEarlier_refl;
  match goal with
  | |- context [deltaContent ?v] =>
      destruct (isEvent v (lit "thread.message.delta") && truthy (deltaContent v));
      [ destruct (deltaContent v) as [cp|];
        [ destruct (iterate cp) as [parts|];
          [ pose proof (processParts_keeps parts st) as H;
            destruct (processParts st parts) as [s1 [|]] |] |] |];
      try (destruct (isEvent v (lit "thread.message.completed")));
      try exact H; apply keepsEarlier_refl
  end.
Qed.

Lemma processLines_keeps (lines : list str) (st : ChatState) (buffer : str) :
  keepsEarlier (messages st) (messages (fst (processLines st buffer lines))).
Proof.
  revert st buffer. induction lines as [|l r IH]; intros st buffer; cbn [processLines].
  - apply keepsEarlier_refl.
  - assert (H : keepsEarlier (messages st)
                  (messages (fst (fst (processLine st buffer l))))).
    { rewrite processLine_classify.
      destruct (classify l) as [| | |line parsed]; try apply keepsEarlier_refl.
      pose proof (processEvent_keeps st parsed) as H.
      destruct (processEvent st parsed) as [s1 [|]]; exact H. }
    destruct (processLine st buffer l) as [[st1 b1] [|]]; [exact H|].
    eapply keepsEarlier_trans; [exact H|apply IH].
Qed.

Lemma readLoop_keeps (chunks : list (list N)) (st : ChatState) (d : Utf8State)
  (buffer : str) :
  keepsEarlier (messages st) (messages (readLoop st d buffer chunks)).
Proof.
  revert st d buffer. induction chunks as [|v r IH]; intros st d buffer;
    cbn [readLoop].
  - apply keepsEarlier_refl.
  - destruct (decode d v) as [d1 decoded].
    pose proof (processLines_keeps (completeLines (buffer ++ decoded)) st
                  (partialLine (buffer ++ decoded))) as H.
    rewrite <- processText_lines in H.
    destruct (processText st buffer decoded) as [st1 b1].
    eapply keepsEarlier_trans; [exact H|apply IH].
Qed.

(** Whatever is sent and whatever the network answers, [sendMessage] keeps
    every message of the log but possibly the last in its place, replaces
    the last one only when it is an assistant's, and never makes the log
    shorter. *)
Theorem sendMessage_keeps_earlier (st : ChatState) (t : str)
  (displayUserMessage : bool) (net : FetchResult) :
  keepsEarlier (messages st) (messages (fst (sendMessage st t displayUserMessage net))).
Proof.
  unfold sendMessage. destruct (isBlank t); [apply keepsEarlier_refl|].
  destruct (threadId st) as [[|c tid]|]; try apply keepsEarlier_refl.
  cbn [fst]. apply (keepsEarlier_trans _ (messages (beginSend st t displayUserMessage))).
  - destruct displayUserMessage; cbn.
    + left. exists [mkMessage user t]. reflexivity.
    + apply keepsEarlier_refl.
  - destruct net; cbn [consume]; try apply keepsEarlier_refl.
    exact (readLoop_keeps chunks
             (setAssistantMessageRef [] (beginSend st t displayUserMessage))
             newDecoder []).
Qed.

(** ** Further facts about the read loop *)

(** The texts [decoder.decode(value, { stream: true })] returns read by
    read, put together, are the text the whole body decodes to: where the
    reads cut the bytes does not show in the decoded text. *)
Theorem decoding_ignores_reads (chunks : list (list N)) :
  concat (decodeChunks newDecoder chunks) = decodedBody chunks.
Proof. apply decodeChunks_concat. Qed.

(** One turn of the read loop processes the complete lines of the buffer
    with the decoded text appended, in order, after the buffer was set to
    the piece that follows the last line break. *)
Theorem read_processes_complete_lines (st : ChatState) (buffer decoded : str) :
  processText st buffer decoded
  = processLines st (partialLine (buffer ++ decoded))
      (completeLines (buffer ++ decoded)).
Proof. apply processText_lines. Qed.

(** The guard [!text.trim()] holds of the texts made of white space only,
    the empty text among them, and of no other. *)
Theorem blank_is_whitespace_only (t : str) :
  isBlank t = true <-> forallb isWhiteSpace t = true.
Proof. apply isBlank_whitespace. Qed.

(** ** Invariants of the read loop

    The loop changes the state in two ways only: a content part grows the
    accumulator and runs the updater of the log, and a terminator or a
    completed event clears the disabled flag.  What both keep, the loop
    keeps. *)

Section LoopInvariant.

Variable P : ChatState -> Prop.

Hypothesis part_keeps :
  forall (st : ChatState) (content : str),
    P st ->
    P (setMessages (updateAssistant (assistantMessageRef st ++ content))
         (setAssistantMessageRef (assistantMessageRef st ++ content) st)).

Hypothesis enable_keeps : forall st : ChatState, P st -> P (setInputDisabled false st).

Lemma processParts_invariant (parts : list json) (st : ChatState) :
  P st -> P (fst (processParts st parts)).
Proof.
  revert st. induction parts as [|p r IH]; intros st H; cbn [processParts].
  - exact H.
  - unfold processPart. destruct (ToString (partContent p)) as [content|].
    + apply IH. apply part_keeps. exact H.
    + exact H.
Qed.

Lemma processEvent_invariant (st : ChatState) (parsed : json) :
  P st -> P (fst (processEvent st parsed)).
Proof.
  intros H. unfold processEvent. destruct parsed; try exact H;
  match goal with
  | |- context [deltaContent ?v] =>
      destruct (isEvent v (lit "thread.message.delta") && truthy (deltaContent v));
      [ destruct (deltaContent v) as [cp|];
        [ destruct (iterate cp) as [parts|];
          [ pose proof (processParts_invariant parts st H) as H';
            destruct (processParts st parts) as [s1 [|]] |] |] |];
      try (destruct (isEvent v (lit "thread.message.completed")));
      cbn [fst] in *; try apply enable_keeps; assumption
  end.
Qed.

Lemma processLine_invariant (st : ChatState) (buffer line0 : str) :
  P st -> P (fst (fst (processLine st buffer line0))).
Proof.
  intros H. rewrite processLine_classify.
  destruct (classify line0) as [| | |line parsed]; cbn [fst]; try assumption.
  - apply enable_keeps. exact H.
  - pose proof (processEvent_invariant st parsed H) as H'.
    destruct (processEvent st parsed) as [s1 [|]]; exact H'.
Qed.

Lemma processLines_invariant (lines : list str) (st : ChatState) (buffer : str) :
  P st -> P (fst (processLines st buffer lines)).
Proof.
  revert st buffer. induction lines as [|l r IH]; intros st buffer H;
    cbn [processLines].
  - exact H.
  - pose proof (processLine_invariant st buffer l H) as H'.
    destruct (processLine st buffer l) as [[st1 b1] [|]]; [exact H'|].
    apply IH. exact H'.
Qed.

Lemma processText_invariant (st : ChatState) (buffer decoded : str) :
  P st -> P (fst (processText st buffer decoded)).
Proof. intros H. rewrite processText_lines. apply processLines_invariant. exact H. Qed.

Lemma readLoop_invariant (chunks : list (list N)) (st : ChatState) (d : Utf8State)
  (buffer : str) :
  P st -> P (readLoop st d buffer chunks).
Proof.
  revert st d buffer. induction chunks as [|v r IH]; intros st d buffer H;
    cbn [readLoop].
  - exact H.
  - destruct (decode d v) as [d1 decoded].
    pose proof (processText_invariant st buffer decoded H) as H'.
    destruct (processText st buffer decoded) as [st1 b1]. apply IH. exact H'.
Qed.

Lemma consume_invariant (st : ChatState) (net : FetchResult) :
  P (setAssistantMessageRef [] st) -> P st -> P (consume st net).
Proof.
  intros H0 H. destruct net; cbn [consume]; apply enable_keeps; try exact H.
  apply readLoop_invariant. exact H0.
Qed.

End LoopInvariant.

(** ** The log after a call *)

Lemma updateAssistant_slot (current : str) (log : list MessageType) :
  updateAssistant current log = assistantSlot log ++ [mkMessage assistant current].
Proof.
  unfold updateAssistant, assistantSlot. destruct (rev log) as [|m r]; [reflexivity|].
  destruct (Role_eqb (role m) assistant); reflexivity.
Qed.

Lemma assistantSlot_assistant (log : list MessageType) (t : str) :
  assistantSlot (log ++ [mkMessage assistant t]) = log.
Proof.
  unfold assistantSlot. rewrite rev_app_distr. cbn. apply removelast_last.
Qed.

Lemma assistantSlot_user (log : list MessageType) (t : str) :
  assistantSlot (log ++ [mkMessage user t]) = log ++ [mkMessage user t].
Proof. unfold assistantSlot. rewrite rev_app_distr. reflexivity. Qed.

Lemma showsAccumulator_loop (log0 : list MessageType) (st : ChatState)
  (chunks : list (list N)) :
  messages st = log0 ->
  showsAccumulator log0 (readLoop (setAssistantMessageRef [] st) newDecoder [] chunks).
Proof.
  intros H. apply readLoop_invariant.
  - intros s content [E|E]; right; cbn [messages setMessages setAssistantMessageRef
                                         assistantMessageRef];
      rewrite updateAssistant_slot, E; [reflexivity|].
    rewrite assistantSlot_assistant. reflexivity.
  - intros s Hs. exact Hs.
  - left. exact H.
Qed.

(** The log [sendMessage] leaves, for every text and every answer of the
    network: the log it found, when a guard stopped it; else the log
    [beginSend] made, or that log with one assistant message at its end
    that holds the accumulator (and stands in the place of the assistant
    message that log ended with, if it did). *)
Lemma sendMessage_log (st : ChatState) (t : str) (displayUserMessage : bool)
  (net : FetchResult) :
  sendMessage st t displayUserMessage net = (st, [])
  \/ showsAccumulator (messages (beginSend st t displayUserMessage))
       (fst (sendMessage st t displayUserMessage net)).
Proof.
  unfold sendMessage. destruct (isBlank t); [left; reflexivity|].
  destruct (threadId st) as [[|c tid]|]; try (left; reflexivity).
  right. cbn [fst]. destruct net; cbn [consume]; try (left; reflexivity).
  exact (showsAccumulator_loop _ (beginSend st t displayUserMessage) chunks eq_refl).
Qed.

(** Whatever bytes the body delivers, in whatever reads, and whatever the
    lines are (refused by the parser or not), the log after [sendMessage] is
    one of three: the log before the call; that log with the user message
    when it is displayed; or the latter with, at its end, exactly one
    assistant message that holds the accumulator, in the place of the
    assistant message it ended with, if it did. *)
Theorem log_after_sendMessage (st : ChatState) (t : str) (displayUserMessage : bool)
  (net : FetchResult) :
  let final := fst (sendMessage st t displayUserMessage net) in
  let log0 := messages st ++ (if displayUserMessage then [mkMessage user t] else []) in
  messages final = messages st
  \/ messages final = log0
  \/ messages final
     = assistantSlot log0 ++ [mkMessage assistant (assistantMessageRef final)].
Proof.
  cbv zeta.
  assert (E : messages (beginSend st t displayUserMessage)
              = messages st ++ (if displayUserMessage then [mkMessage user t] else [])).
  { destruct displayUserMessage; cbn; [reflexivity|symmetry; apply app_nil_r]. }
  destruct (sendMessage_log st t displayUserMessage net) as [H|[H|H]].
  - left. rewrite H. reflexivity.
  - right. left. rewrite H, E. reflexivity.
  - right. right. rewrite H, E. reflexivity.
Qed.

(** A displayed message never costs the log anything: after
    [sendMessage(text)] the log is the log before, or the log before with
    the user message, or the log before with the user message and one
    assistant message that holds the accumulator. *)
Theorem displayed_submit_appends (st : ChatState) (t : str) (net : FetchResult) :
  let final := fst (sendMessage st t true net) in
  messages final = messages st
  \/ messages final = messages st ++ [mkMessage user t]
  \/ messages final
     = messages st
       ++ [mkMessage user t; mkMessage assistant (assistantMessageRef final)].
Proof.
  cbv zeta.
  assert (E : messages (beginSend st t true) = messages st ++ [mkMessage user t])
    by reflexivity.
  destruct (sendMessage_log st t true net) as [H|[H|H]].
  - left. rewrite H. reflexivity.
  - right. left. rewrite H, E. reflexivity.
  - right. right. rewrite H, E, assistantSlot_user, <- app_assoc. reflexivity.
Qed.

Lemma userMessages_app (a b : list MessageType) :
  userMessages (a ++ b) = userMessages a ++ userMessages b.
Proof. apply filter_app. Qed.

Lemma assistantMessages_app (a b : list MessageType) :
  assistantMessages (a ++ b) = assistantMessages a ++ assistantMessages b.
Proof. apply filter_app. Qed.

Lemma assistantSlot_parts (log : list MessageType) :
  assistantSlot log = log
  \/ exists t, log = assistantSlot log ++ [mkMessage assistant t].
Proof.
  unfold assistantSlot. destruct log as [|x log] using rev_ind; [left; reflexivity|].
  rewrite rev_app_distr. cbn [rev app]. destruct x as [[|] t]; cbn.
  - left. reflexivity.
  - right. exists t. rewrite removelast_last. reflexivity.
Qed.

Lemma showsAccumulator_counts (log0 : list MessageType) (st : ChatState) :
  showsAccumulator log0 st ->
  userMessages (messages st) = userMessages log0
  /\ (List.length (assistantMessages log0)
      <= List.length (assistantMessages (messages st))
      <= S (List.length (assistantMessages log0)))%nat.
Proof.
  intros [E|E]; rewrite E; [split; [reflexivity|lia]|].
  rewrite userMessages_app, assistantMessages_app, length_app.
  change (userMessages [mkMessage assistant (assistantMessageRef st)]) with (@nil MessageType).
  change (List.length (assistantMessages [mkMessage assistant (assistantMessageRef st)]))
    with 1%nat.
  rewrite app_nil_r.
  destruct (assistantSlot_parts log0) as [S0|[x S0]].
  - rewrite S0. split; [reflexivity|lia].
  - set (slot := assistantSlot log0) in *. rewrite S0.
    rewrite userMessages_app, assistantMessages_app, length_app.
    change (userMessages [mkMessage assistant x]) with (@nil MessageType).
    change (List.length (assistantMessages [mkMessage assistant x])) with 1%nat.
    rewrite app_nil_r. split; [reflexivity|lia].
Qed.

(** One call changes the user messages of the log by the message it
    displays, and by nothing else, whatever the stream holds; and it leaves
    the number of assistant messages as it was or adds one to it. *)
Theorem sendMessage_counts (st : ChatState) (t : str) (displayUserMessage : bool)
  (net : FetchResult) :
  let final := fst (sendMessage st t displayUserMessage net) in
  userMessages (messages final)
  = userMessages (messages st)
    ++ match snd (sendMessage st t displayUserMessage net) with
       | [] => []
       | _ :: _ => if displayUserMessage then [mkMessage user t] else []
       end
  /\ (List.length (assistantMessages (messages st))
      <= List.length (assistantMessages (messages final))
      <= S (List.length (assistantMessages (messages st))))%nat.
Proof.
  cbv zeta.
  assert (E : messages (beginSend st t displayUserMessage)
              = messages st ++ (if displayUserMessage then [mkMessage user t] else []))
    by (destruct displayUserMessage; cbn; [reflexivity|symmetry; apply app_nil_r]).
  assert (Eu : userMessages (messages (beginSend st t displayUserMessage))
               = userMessages (messages st)
                 ++ (if displayUserMessage then [mkMessage user t] else []))
    by (rewrite E, userMessages_app; destruct displayUserMessage; reflexivity).
  assert (Ea : assistantMessages (messages (beginSend st t displayUserMessage))
               = assistantMessages (messages st))
    by (rewrite E, assistantMessages_app; destruct displayUserMessage; cbn;
        apply app_nil_r).
  assert (R : snd (sendMessage st t displayUserMessage net) = []
              -> sendMessage st t displayUserMessage net = (st, [])).
  { unfold sendMessage. destruct (isBlank t); [reflexivity|].
    destruct (threadId st) as [[|c tid]|]; try reflexivity. discriminate. }
  destruct (snd (sendMessage st t displayUserMessage net)) eqn:Es.
  - rewrite (R eq_refl). cbn [fst]. rewrite app_nil_r. split; [reflexivity|lia].
  - destruct (sendMessage_log st t displayUserMessage net) as [H|H].
    + rewrite H in Es. discriminate.
    + apply showsAccumulator_counts in H. rewrite Eu, Ea in H. exact H.
Qed.

(** What a call of [sendMessage] comes to.  Either a guard stops it: the
    state is the one it was called in and nothing is requested.  Or exactly
    one request is posted, to the thread the state holds and with the text
    as it was passed; and when the call returns, whatever the network did,
    the input text is empty, the input is enabled, and the thread
    identifier is the one it was. *)
Theorem sendMessage_contract (st : ChatState) (t : str) (displayUserMessage : bool)
  (net : FetchResult) :
  sendMessage st t displayUserMessage net = (st, [])
  \/ exists tid,
      threadId st = Some tid
      /\ snd (sendMessage st t displayUserMessage net) = [mkRequest tid t]
      /\ userInput (fst (sendMessage st t displayUserMessage net)) = []
      /\ threadId (fst (sendMessage st t displayUserMessage net)) = Some tid
      /\ inputDisabled (fst (sendMessage st t displayUserMessage net)) = false.
Proof.
  unfold sendMessage. destruct (isBlank t); [left; reflexivity|].
  destruct (threadId st) as [[|c tid]|] eqn:Hid; try (left; reflexivity).
  right. exists (c :: tid). cbn [fst snd].
  assert (H : userInput (consume (beginSend st t displayUserMessage) net) = []
              /\ threadId (consume (beginSend st t displayUserMessage) net)
                 = Some (c :: tid)).
  { apply (consume_invariant
             (fun s => userInput s = [] /\ threadId s = Some (c :: tid))).
    - intros s content Hs. exact Hs.
    - intros s Hs. exact Hs.
    - split; [reflexivity|]. destruct displayUserMessage; exact Hid.
    - split; [reflexivity|]. destruct displayUserMessage; exact Hid. }
  destruct H as [H1 H2]. repeat split; try assumption. apply consume_enables.
Qed.

(** ** The carry-over buffer *)

Lemma trimStart_incl (l : str) (c : N) : In c (trimStart l) -> In c l.
Proof.
  induction l as [|x l IH]; cbn [trimStart]; [tauto|].
  destruct (isWhiteSpace x); [|tauto]. intros H. right. apply IH. exact H.
Qed.

Lemma trim_incl (l : str) (c : N) : In c (trim l) -> In c l.
Proof.
  unfold trim, trimEnd. intros H. apply in_rev in H. apply trimStart_incl in H.
  apply in_rev in H. apply trimStart_incl in H. exact H.
Qed.

Lemma stripData_incl (l : str) (c : N) : In c (stripData l) -> In c l.
Proof.
  unfold stripData, slice. destruct (startsWith l (lit "data: ")); [|tauto].
  generalize (List.length (lit "data: ")). intros n. revert l.
  induction n as [|n IH]; intros [|x l]; cbn [skipn]; try tauto.
  intros H. right. apply IH. exact H.
Qed.

Lemma processLine_buffer (st : ChatState) (buffer line0 : str) :
  snd (fst (processLine st buffer line0)) = buffer
  \/ snd (fst (processLine st buffer line0)) = stripData (trim line0).
Proof.
  unfold processLine. destruct (trim line0) as [|c r]; [left; reflexivity|].
  destruct (str_eqb (stripData (c :: r)) (lit "[DONE]")); [left; reflexivity|].
  destruct (JSON_parse (stripData (c :: r))); [|right; reflexivity].
  destruct (processEvent st j) as [st1 [|]]; [left|right]; reflexivity.
Qed.

Lemma processLines_buffer (lines : list str) (st : ChatState) (buffer : str) :
  ~ In 10 buffer -> Forall (fun l => ~ In 10 l) lines ->
  ~ In 10 (snd (processLines st buffer lines)).
Proof.
  revert st buffer. induction lines as [|l r IH]; intros st buffer Hb Hl;
    cbn [processLines]; [exact Hb|].
  inversion Hl as [|? ? Hl1 Hl2]; subst.
  assert (Hb1 : ~ In 10 (snd (fst (processLine st buffer l)))).
  { destruct (processLine_buffer st buffer l) as [E|E]; rewrite E; [exact Hb|].
    intros H. apply Hl1. apply trim_incl, stripData_incl. exact H. }
  destruct (processLine st buffer l) as [[st1 b1] [|]]; cbn [fst snd] in *.
  - exact Hb1.
  - apply IH; assumption.
Qed.

Lemma removelast_Forall {A : Type} (Q : A -> Prop) (l : list A) :
  Forall Q l -> Forall Q (removelast l).
Proof.
  induction 1 as [|x l Hx Hl IH]; [constructor|].
  cbn [removelast]. destruct l; [constructor|]. constructor; assumption.
Qed.

Lemma no_break_endsWithNewline (b : str) : ~ In 10 b -> endsWithNewline b = false.
Proof.
  unfold endsWithNewline. intros H. destruct (rev b) as [|c r] eqn:E; [reflexivity|].
  apply N.eqb_neq. intros ->. apply H. apply in_rev. rewrite E. left. reflexivity.
Qed.

Lemma processText_buffer (st : ChatState) (buffer decoded : str) :
  ~ In 10 (snd (processText st buffer decoded)).
Proof.
  rewrite processText_lines. apply processLines_buffer.
  - apply partialLine_no_break.
  - apply removelast_Forall, split_pieces.
Qed.

(** The carry-over buffer never holds a line feed after a read: it is the
    piece that follows the last line break, or a line that was refused.  So
    every line is handed to the loop once, by the read that delivers its
    line feed; and a read that decodes to nothing (no bytes, or the first
    bytes of a character) changes neither the state nor the buffer. *)
Theorem buffer_between_reads (st : ChatState) (buffer decoded : str) :
  ~ In 10 (snd (processText st buffer decoded))
  /\ processText (fst (processText st buffer decoded))
       (snd (processText st buffer decoded)) []
     = processText st buffer decoded.
Proof.
  pose proof (processText_buffer st buffer decoded) as H.
  split; [exact H|].
  destruct (processText st buffer decoded) as [st1 b1]. cbn [fst snd] in *.
  unfold processText. rewrite app_nil_r, (no_break_endsWithNewline _ H).
  rewrite (split_no_break _ H). reflexivity.
Qed.

(** ** Lines that come to the same *)

Lemma processLine_blank (st : ChatState) (buffer line0 : str) :
  isBlank line0 = true -> processLine st buffer line0 = (st, buffer, false).
Proof.
  unfold isBlank, processLine. destruct (trim line0); [reflexivity|discriminate].
Qed.

(** Lines that are empty or hold white space only count for nothing,
    wherever they stand in a batch: the batch without them leaves the same
    state and the same buffer. *)
Theorem blank_lines_ignored (st : ChatState) (buffer : str) (lines : list str) :
  processLines st buffer (filter (fun l => negb (isBlank l)) lines)
  = processLines st buffer lines.
Proof.
  revert st buffer. induction lines as [|l r IH]; intros st buffer; [reflexivity|].
  cbn [filter processLines]. destruct (isBlank l) eqn:E; cbn [negb].
  - rewrite (processLine_blank st buffer l E). apply IH.
  - cbn [processLines].
    destruct (processLine st buffer l) as [[st1 b1] [|]]; [reflexivity|apply IH].
Qed.

Lemma trimStart_length (l : str) :
  (List.length (trimStart l) <= List.length l)%nat.
Proof.
  induction l as [|x l IH]; cbn [trimStart List.length]; [lia|].
  destruct (isWhiteSpace x); cbn [List.length]; lia.
Qed.

Lemma trim_fixed_start (l : str) : trim l = l -> trimStart l = l.
Proof.
  intros H. destruct l as [|c r]; [reflexivity|]. cbn [trimStart].
  destruct (isWhiteSpace c) eqn:E; [|reflexivity]. exfalso.
  apply (f_equal (@List.length N)) in H. unfold trim, trimEnd in H.
  rewrite length_rev in H. cbn [trimStart] in H. rewrite E in H.
  pose proof (trimStart_length (rev (trimStart r))) as L1.
  pose proof (trimStart_length r) as L2.
  rewrite length_rev in L1. cbn [List.length] in H. lia.
Qed.

Lemma trim_fixed_end (l : str) : trim l = l -> trimStart (rev l) = rev l.
Proof.
  intros H. pose proof (trim_fixed_start l H) as Hs.
  unfold trim, trimEnd in H. rewrite Hs in H.
  apply (f_equal (@rev N)) in H. rewrite rev_involutive in H. exact H.
Qed.

Lemma trimStart_app (a b : str) :
  a <> [] -> trimStart a = a -> trimStart (a ++ b) = a ++ b.
Proof.
  destruct a as [|c a]; [congruence|]. intros _. cbn [trimStart app].
  destruct (isWhiteSpace c); [|reflexivity].
  intros H. exfalso. apply (f_equal (@List.length N)) in H.
  pose proof (trimStart_length a). cbn [List.length] in H. lia.
Qed.

(** A line that is trimmed and starts with the prefix: the prefix in front
    of a trimmed line is a trimmed line. *)
Lemma trim_prefixed (l : str) :
  l <> [] -> trim l = l -> trim (lit "data: " ++ l) = lit "data: " ++ l.
Proof.
  intros Hne H. unfold trim, trimEnd.
  assert (E1 : trimStart (lit "data: " ++ l) = lit "data: " ++ l) by reflexivity.
  rewrite E1, rev_app_distr.
  rewrite trimStart_app.
  - rewrite <- rev_app_distr. apply rev_involutive.
  - intros E. apply (f_equal (@rev N)) in E. rewrite rev_involutive in E.
    apply Hne. exact E.
  - apply trim_fixed_end. exact H.
Qed.

(** The prefix is optional: a line that is trimmed, not empty and does not
    itself start with the prefix is processed the same with [data: ] in
    front of it and without. *)
Theorem prefix_is_optional (st : ChatState) (buffer line : str) :
  line <> [] -> trim line = line -> startsWith line (lit "data: ") = false ->
  processLine st buffer (lit "data: " ++ line) = processLine st buffer line.
Proof.
  intros Hne Ht Hp. unfold processLine.
  rewrite (trim_prefixed line Hne Ht), Ht.
  assert (E : stripData (lit "data: " ++ line) = line) by reflexivity.
  assert (E' : stripData line = line) by (unfold stripData; rewrite Hp; reflexivity).
  destruct line as [|c r]; [congruence|].
  change (lit "data: " ++ c :: r) with (100 :: (lit "ata: " ++ c :: r)) at 1.
  cbv beta iota.
  change (100 :: (lit "ata: " ++ c :: r)) with (lit "data: " ++ c :: r).
  rewrite E, E'. reflexivity.
Qed.

(** ** Line ends *)

Lemma crlf_first (r : str) : startsWith (crlf r) [10] = false.
Proof.
  destruct r as [|x r]; [reflexivity|]. unfold crlf. cbn [flat_map].
  destruct (x =? 10) eqn:E; cbn [app startsWith]; [reflexivity|].
  rewrite E. reflexivity.
Qed.

Lemma crlf_cons (c : N) (r : str) :
  crlf (c :: r) = (if c =? 10 then [13; 10] else [c]) ++ crlf r.
Proof. reflexivity. Qed.

Lemma crlf_no_break (b : str) : ~ In 10 b -> crlf b = b.
Proof.
  induction b as [|c r IH]; intros H; [reflexivity|]. rewrite crlf_cons.
  assert (Hc : c <> 10) by (intros ->; apply H; left; reflexivity).
  apply N.eqb_neq in Hc. rewrite Hc, IH; [reflexivity|].
  intros Hin. apply H. right. exact Hin.
Qed.

Lemma cons_head_sameButCR (c : N) (X' X C' C : list str) (p : str) :
  X' = C' ++ [p] -> X = C ++ [p] -> Forall2 sameButCR C' C ->
  exists C1' C1 p1,
    cons_head c X' = C1' ++ [p1] /\ cons_head c X = C1 ++ [p1]
    /\ Forall2 sameButCR C1' C1.
Proof.
  intros -> -> H. destruct H as [|a b A B Hab HAB].
  - exists [], [], (c :: p). repeat split. constructor.
  - exists ((c :: a) :: A), ((c :: b) :: B), p. repeat split.
    constructor; [|exact HAB]. destruct Hab as [->| ->]; [left|right]; reflexivity.
Qed.

(** The pieces of a text with the longer line ends: piece by piece those of
    the text itself, but for a carriage return at the end of a complete
    line; the piece after the last line break is the same. *)
Lemma split_crlf_bounded (n : nat) :
  forall s : str, (List.length s <= n)%nat ->
  exists C' C p,
    split (crlf s) = C' ++ [p] /\ split s = C ++ [p] /\ Forall2 sameButCR C' C.
Proof.
  induction n as [n IH] using lt_wf_ind. intros s Hlen.
  destruct s as [|c r].
  - exists [], [], []. repeat split. constructor.
  - assert (IHr : forall x : str, (List.length x <= List.length r)%nat ->
                  exists C' C p,
                    split (crlf x) = C' ++ [p] /\ split x = C ++ [p]
                    /\ Forall2 sameButCR C' C).
    { intros x Hx. apply (IH (List.length r)); [cbn in Hlen; lia|exact Hx]. }
    rewrite crlf_cons. destruct (c =? 10) eqn:E10.
    + destruct (IHr r (le_n _)) as (C' & C & p & E1 & E2 & F).
      exists ([] :: C'), ([] :: C), p. cbn [app split].
      change (13 =? 10) with false. change (13 =? 13) with true.
      cbn [andb startsWith]. change (10 =? 10) with true. cbn [andb].
      rewrite E10, E1, E2. repeat split. constructor; [left; reflexivity|exact F].
    + cbn [app split]. rewrite E10, crlf_first, andb_false_r.
      destruct ((c =? 13) && startsWith r [10]) eqn:E13.
      * apply andb_true_iff in E13. destruct E13 as [Ec Er].
        apply N.eqb_eq in Ec. subst c.
        destruct (startsWith_LF _ Er) as [r' ->].
        destruct (IHr r' ltac:(cbn; lia)) as (C' & C & p & E1 & E2 & F).
        exists ([13] :: C'), ([] :: C), p.
        rewrite crlf_cons. change (10 =? 10) with true. cbn [app split].
        change (13 =? 10) with false. change (13 =? 13) with true.
        cbn [andb startsWith]. change (10 =? 10) with true. cbn [andb cons_head].
        rewrite E1, E2. repeat split. constructor; [right; reflexivity|exact F].
      * destruct (IHr r (le_n _)) as (C' & C & p & E1 & E2 & F).
        apply (cons_head_sameButCR c _ _ C' C p E1 E2 F).
Qed.

Lemma split_crlf (s : str) :
  exists C' C p,
    split (crlf s) = C' ++ [p] /\ split s = C ++ [p] /\ Forall2 sameButCR C' C.
Proof. apply (split_crlf_bounded (List.length s)). reflexivity. Qed.

Lemma trimStart_app_ws (a : str) (w : N) :
  isWhiteSpace w = true ->
  (trimStart a = [] /\ trimStart (a ++ [w]) = [])
  \/ (trimStart a <> [] /\ trimStart (a ++ [w]) = trimStart a ++ [w]).
Proof.
  intros Hw. induction a as [|c a IH]; cbn [app trimStart].
  - rewrite Hw. left. split; reflexivity.
  - destruct (isWhiteSpace c); [exact IH|]. right. split; [discriminate|reflexivity].
Qed.

Lemma sameButCR_trim (p q : str) : sameButCR p q -> trim p = trim q.
Proof.
  intros [->| ->]; [reflexivity|]. unfold trim, trimEnd.
  destruct (trimStart_app_ws q 13 eq_refl) as [[E1 E2]|[_ E2]]; rewrite E2.
  - rewrite E1. reflexivity.
  - rewrite rev_app_distr. reflexivity.
Qed.

Lemma processLine_trim (st : ChatState) (buffer l l' : str) :
  trim l = trim l' -> processLine st buffer l = processLine st buffer l'.
Proof. unfold processLine. intros ->. reflexivity. Qed.

Lemma processLines_sameButCR (L' L : list str) :
  Forall2 sameButCR L' L ->
  forall (st : ChatState) (buffer : str),
    processLines st buffer L' = processLines st buffer L.
Proof.
  induction 1 as [|p q P Q Hpq HPQ IH]; intros st buffer; [reflexivity|].
  cbn [processLines]. rewrite (processLine_trim st buffer p q (sameButCR_trim p q Hpq)).
  destruct (processLine st buffer q) as [[st1 b1] [|]]; [reflexivity|apply IH].
Qed.

(** One read of a text with the longer line ends does what the read of the
    text itself does. *)
Lemma processText_crlf (st : ChatState) (buffer decoded : str) :
  ~ In 10 buffer ->
  processText st buffer (crlf decoded) = processText st buffer decoded.
Proof.
  intros Hb. rewrite !processText_lines.
  assert (E : buffer ++ crlf decoded = crlf (buffer ++ decoded)).
  { unfold crlf at 2. rewrite flat_map_app. fold (crlf buffer) (crlf decoded).
    rewrite (crlf_no_break _ Hb). reflexivity. }
  rewrite E. unfold completeLines, partialLine.
  destruct (split_crlf (buffer ++ decoded)) as (C' & C & p & -> & -> & F).
  rewrite !removelast_last, !last_last. apply processLines_sameButCR. exact F.
Qed.

Lemma textLoop_crlf (texts : list str) (st : ChatState) (buffer : str) :
  ~ In 10 buffer ->
  textLoop st buffer (map crlf texts) = textLoop st buffer texts.
Proof.
  revert st buffer. induction texts as [|t r IH]; intros st buffer Hb; [reflexivity|].
  cbn [map textLoop]. rewrite (processText_crlf st buffer t Hb).
  pose proof (processText_buffer st buffer t) as Hb'.
  destruct (processText st buffer t) as [st1 b1]. apply IH. exact Hb'.
Qed.

(** Line ends of a carriage return and a line feed do as line ends of a
    line feed: when the reads of one body decode to the texts of another
    with every line feed turned into a carriage return and a line feed,
    [sendMessage] leaves the same state on both. *)
Theorem crlf_line_ends (st : ChatState) (t : str) (displayUserMessage : bool)
  (chunks chunks' : list (list N)) (ending ending' : StreamEnd) :
  decodeChunks newDecoder chunks' = map crlf (decodeChunks newDecoder chunks) ->
  sendMessage st t displayUserMessage (Body chunks' ending')
  = sendMessage st t displayUserMessage (Body chunks ending).
Proof.
  intros H. unfold sendMessage. destruct (isBlank t); [reflexivity|].
  destruct (threadId st) as [[|c tid]|]; try reflexivity.
  cbn [consume]. rewrite !readLoop_textLoop, H, textLoop_crlf; [reflexivity|].
  intros [].
Qed.

(** ** The callers of [sendMessage] *)

Lemma sendMessage_input (st : ChatState) (t : str) (displayUserMessage : bool)
  (net : FetchResult) :
  sendMessage st t displayUserMessage net = (st, [])
  \/ userInput (fst (sendMessage st t displayUserMessage net)) = [].
Proof.
  unfold sendMessage. destruct (isBlank t); [left; reflexivity|].
  destruct (threadId st) as [[|c tid]|]; try (left; reflexivity).
  right. cbn [fst].
  apply (consume_invariant (fun s => userInput s = [])); auto.
Qed.

(** Submitting twice in a row sends once at most: after [handleSubmit],
    whatever it did, a second [handleSubmit] right after it returns at once
    and requests nothing (the first has cleared the input, or was stopped
    by a guard that stops the second too). *)
Theorem second_submit_sends_nothing (st : ChatState) (net net' : FetchResult) :
  handleSubmit (fst (handleSubmit st net)) net' = (fst (handleSubmit st net), []).
Proof.
  unfold handleSubmit at 1 3.
  destruct (sendMessage_input st (userInput st) true net) as [H|H].
  - unfold handleSubmit. rewrite H. cbn [fst].
    unfold sendMessage in H |- *. destruct (isBlank (userInput st)); [reflexivity|].
    destruct (threadId st) as [[|c tid]|]; try reflexivity. discriminate.
  - unfold handleSubmit. rewrite H. reflexivity.
Qed.

(** The stored payload is never displayed: [handleStartOrientation] leaves
    the user messages of the log as they are, whatever the payload and the
    stream; and without a payload it does nothing at all. *)
Theorem orientation_never_displayed (st : ChatState) (formData : option str)
  (net : FetchResult) :
  userMessages (messages (fst (handleStartOrientation st formData net)))
  = userMessages (messages st)
  /\ (formData = None -> handleStartOrientation st formData net = (st, [])).
Proof.
  split; [|intros ->; reflexivity].
  unfold handleStartOrientation. destruct formData as [[|c m]|]; try reflexivity.
  destruct (sendMessage_log st (c :: m) false net) as [H|H].
  - rewrite H. reflexivity.
  - apply showsAccumulator_counts in H. destruct H as [H _]. exact H.
Qed.

Lemma processParts_flag (parts : list json) (st : ChatState) :
  inputDisabled (fst (processParts st parts)) = inputDisabled st.
Proof.
  apply (processParts_invariant (fun s => inputDisabled s = inputDisabled st)); auto.
Qed.

Lemma processLine_flag (st : ChatState) (buffer line0 : str) :
  enablesInput line0 = false ->
  inputDisabled (fst (fst (processLine st buffer line0))) = inputDisabled st.
Proof.
  unfold enablesInput. rewrite processLine_classify.
  destruct (classify line0) as [| | |line parsed]; try reflexivity; try discriminate.
  intros Hc.
  assert (H : inputDisabled (fst (processEvent st parsed)) = inputDisabled st).
  { unfold processEvent. rewrite Hc. destruct parsed; try reflexivity;
    match goal with
    | |- context [deltaContent ?v] =>
        destruct (isEvent v (lit "thread.message.delta") && truthy (deltaContent v));
        [ destruct (deltaContent v) as [cp|];
          [ destruct (iterate cp) as [parts|];
            [ pose proof (processParts_flag parts st) as H';
              destruct (processParts st parts) as [s1 [|]]; exact H' |] |] |];
        reflexivity
    end. }
  destruct (processEvent st parsed) as [s1 [|]]; exact H.
Qed.

(** The input stays as it is, disabled while the answer streams, as long as
    no terminator and no completed event is among the lines: content deltas,
    other events, blank lines and lines the parser refuses never touch the
    flag. *)
Theorem input_stays_disabled (lines : list str) (st : ChatState) (buffer : str) :
  existsb enablesInput lines = false ->
  inputDisabled (fst (processLines st buffer lines)) = inputDisabled st.
Proof.
  revert st buffer. induction lines as [|l r IH]; intros st buffer H; [reflexivity|].
  cbn [existsb] in H. apply orb_false_iff in H. destruct H as [Hl Hr].
  cbn [processLines]. pose proof (processLine_flag st buffer l Hl) as E.
  destruct (processLine st buffer l) as [[st1 b1] [|]]; cbn [fst] in *; [exact E|].
  rewrite (IH st1 b1 Hr). exact E.
Qed.

End Chat.

(** ** The parser's fuel

    Whatever the parser yields with some fuel it yields with the fuel
    [JSON_parse] gives it: running out of fuel is never why a line is
    refused. *)

Ltac break_hyp H :=
  repeat (match type of H with
          | context [match ?x with _ => _ end] =>
              first [ is_var x; destruct x
                    | let E := fresh "E" in destruct x eqn:E ]
          end; try discriminate H).

Lemma skipWs_length (s : str) : (List.length (skipWs s) <= List.length s)%nat.
Proof.
  induction s as [|c r IH]; cbn [skipWs List.length]; [lia|].
  destruct (isJsonWs c); cbn [List.length]; lia.
Qed.

Lemma headIs_tl (c : N) (s : str) :
  headIs c s = true -> List.length s = S (List.length (tl s)).
Proof. destruct s; [discriminate|reflexivity]. Qed.

Lemma parseChars_length (n : nat) :
  forall (s t r : str), (List.length s <= n)%nat ->
  parseChars s = Some (t, r) -> (List.length r < List.length s)%nat.
Proof.
  induction n as [|n IH]; intros s t r Hlen H; destruct s as [|c s'];
    cbn [parseChars] in H; try discriminate; cbn [List.length] in *; [lia|].
  cbv zeta in H. break_hyp H; injection H as <- <-;
    repeat match goal with
           | E : parseChars ?x = Some (_, _) |- _ =>
               apply IH in E; [|cbn [List.length] in *; lia]
           end;
    cbn [List.length] in *; lia.
Qed.

Lemma spanDigits_length (s : str) :
  (List.length (snd (spanDigits s)) <= List.length s)%nat.
Proof.
  induction s as [|c r IH]; cbn [spanDigits]; [cbn; lia|].
  destruct (isDigit c); [|cbn; lia].
  destruct (spanDigits r) as [ds r']. cbn [snd List.length] in *. lia.
Qed.

Lemma tl_length (s : str) : (List.length (tl s) <= List.length s)%nat.
Proof. destruct s; cbn; lia. Qed.

Lemma takeSign_length (s : str) :
  (List.length (snd (takeSign s)) <= List.length s)%nat.
Proof.
  unfold takeSign. destruct (headIs 45 s); cbn [snd]; [apply tl_length|lia].
Qed.

Lemma takeInt_length (s ip r : str) :
  takeInt s = Some (ip, r) -> (List.length r <= List.length s)%nat.
Proof.
  unfold takeInt. destruct s as [|c s']; [discriminate|].
  destruct (c =? 48).
  - intros H. injection H as _ <-. cbn. lia.
  - destruct (isDigit c); [|discriminate].
    pose proof (spanDigits_length (c :: s')) as L.
    remember (spanDigits (c :: s')) as x eqn:Ex.
    intros H. injection H as ->. exact L.
Qed.

Lemma takeFrac_length (s : str) :
  (List.length (snd (takeFrac s)) <= List.length s)%nat.
Proof.
  unfold takeFrac. destruct (headIs 46 s); cbn [snd]; [|lia].
  pose proof (spanDigits_length (tl s)) as L. pose proof (tl_length s) as L'.
  destruct (spanDigits (tl s)) as [[|d ds] r]; cbn [snd] in *; lia.
Qed.

Lemma takeExp_length (s : str) :
  (List.length (snd (takeExp s)) <= List.length s)%nat.
Proof.
  unfold takeExp. destruct s as [|e r]; cbn [snd]; [lia|].
  destruct ((e =? 101) || (e =? 69)); cbn [snd]; [|lia].
  pose proof (tl_length r) as L'.
  destruct (headIs 43 r || headIs 45 r).
  - pose proof (spanDigits_length (tl r)) as L.
    destruct (spanDigits (tl r)) as [[|d ds] r']; cbn [snd List.length] in *; lia.
  - pose proof (spanDigits_length r) as L.
    destruct (spanDigits r) as [[|d ds] r']; cbn [snd List.length] in *; lia.
Qed.

Lemma parseNumber_length (s n r : str) :
  parseNumber s = Some (n, r) -> (List.length r <= List.length s)%nat.
Proof.
  unfold parseNumber. pose proof (takeSign_length s) as L1.
  destruct (takeSign s) as [sign s1]. cbn [snd] in L1.
  destruct (takeInt s1) as [[ip s2]|] eqn:E; [|discriminate].
  apply takeInt_length in E.
  pose proof (takeFrac_length s2) as L3. destruct (takeFrac s2) as [fp s3].
  pose proof (takeExp_length s3) as L4. destruct (takeExp s3) as [ep s4].
  cbn [snd] in *. intros H. injection H as _ <-. lia.
Qed.

Ltac use_lengths :=
  repeat match goal with
         | E : headIs _ ?x = true |- _ => apply headIs_tl in E
         | |- context [skipWs ?x] =>
             lazymatch goal with
             | _ : (List.length (skipWs x) <= List.length x)%nat |- _ => fail
             | _ => pose proof (skipWs_length x)
             end
         | _ : context [skipWs ?x] |- _ =>
             lazymatch goal with
             | _ : (List.length (skipWs x) <= List.length x)%nat |- _ => fail
             | _ => pose proof (skipWs_length x)
             end
         end.

Lemma parse_adequate (f : nat) :
  (forall s v r,
     parseValue f s = Some (v, r) ->
     (List.length r <= List.length s)%nat
     /\ forall g, (2 * List.length s + 1 <= g)%nat -> parseValue g s = Some (v, r))
  /\ (forall s vs r,
        parseElements f s = Some (vs, r) ->
        (List.length r <= List.length s)%nat
        /\ forall g, (2 * List.length s + 2 <= g)%nat ->
                     parseElements g s = Some (vs, r))
  /\ (forall s ms r,
        parseMembers f s = Some (ms, r) ->
        (List.length r <= List.length s)%nat
        /\ forall g, (2 * List.length s + 2 <= g)%nat ->
                     parseMembers g s = Some (ms, r)).
Proof.
  induction f as [|f (IHv & IHe & IHm)]; [repeat split; discriminate|].
  split; [|split].
  - (* a value *)
    intros s v r H. cbn [parseValue] in H.
    pose proof (skipWs_length s) as Ls.
    destruct (skipWs s) as [|c r0] eqn:Es; [discriminate|]. cbn [List.length] in Ls.
    assert (Hg : forall g, (2 * List.length s + 1 <= g)%nat ->
                 exists g', g = S g' /\ (2 * List.length r0 + 2 <= g')%nat).
    { intros [|g'] Hg; [lia|]. exists g'. split; [reflexivity|lia]. }
    destruct (c =? 123) eqn:E1; [|destruct (c =? 91) eqn:E2; [|destruct (c =? 34) eqn:E3]].
    + destruct (headIs 125 (skipWs r0)) eqn:E.
      * injection H as <- <-. split.
        -- use_lengths. pose proof (tl_length (skipWs r0)). lia.
        -- intros g Hle. destruct (Hg g Hle) as (g' & -> & _).
           cbn [parseValue]. rewrite Es, E1, E. reflexivity.
      * destruct (parseMembers f r0) as [[ms r']|] eqn:Em; [|discriminate].
        injection H as <- <-. destruct (IHm _ _ _ Em) as [L G]. split; [lia|].
        intros g Hle. destruct (Hg g Hle) as (g' & -> & Hg').
        cbn [parseValue]. rewrite Es, E1, E, (G g' Hg'). reflexivity.
    + destruct (headIs 93 (skipWs r0)) eqn:E.
      * injection H as <- <-. split.
        -- use_lengths. pose proof (tl_length (skipWs r0)). lia.
        -- intros g Hle. destruct (Hg g Hle) as (g' & -> & _).
           cbn [parseValue]. rewrite Es, E1, E2, E. reflexivity.
      * destruct (parseElements f r0) as [[vs r']|] eqn:Ee; [|discriminate].
        injection H as <- <-. destruct (IHe _ _ _ Ee) as [L G]. split; [lia|].
        intros g Hle. destruct (Hg g Hle) as (g' & -> & Hg').
        cbn [parseValue]. rewrite Es, E1, E2, E, (G g' Hg'). reflexivity.
    + destruct (parseChars r0) as [[t r']|] eqn:Ec; [|discriminate].
      injection H as <- <-. split.
      * apply (parseChars_length _ _ _ _ (le_n _)) in Ec. lia.
      * intros g Hle. destruct (Hg g Hle) as (g' & -> & _).
        cbn [parseValue]. rewrite Es, E1, E2, E3, Ec. reflexivity.
    + assert (Lk : forall k, (List.length (slice (c :: r0) k) <= List.length s)%nat).
      { intros k. unfold slice. rewrite length_skipn. cbn [List.length]. lia. }
      destruct (startsWith (c :: r0) (lit "true")) eqn:E4;
        [|destruct (startsWith (c :: r0) (lit "false")) eqn:E5;
          [|destruct (startsWith (c :: r0) (lit "null")) eqn:E6]].
      * injection H as <- <-. split; [exact (Lk 4%nat)|].
        intros g Hle. destruct (Hg g Hle) as (g' & -> & _).
        cbn [parseValue]. rewrite Es, E1, E2, E3, E4. reflexivity.
      * injection H as <- <-. split; [exact (Lk 5%nat)|].
        intros g Hle. destruct (Hg g Hle) as (g' & -> & _).
        cbn [parseValue]. rewrite Es, E1, E2, E3, E4, E5. reflexivity.
      * injection H as <- <-. split; [exact (Lk 4%nat)|].
        intros g Hle. destruct (Hg g Hle) as (g' & -> & _).
        cbn [parseValue]. rewrite Es, E1, E2, E3, E4, E5, E6. reflexivity.
      * destruct (parseNumber (c :: r0)) as [[n r']|] eqn:En; [|discriminate].
        injection H as <- <-. split.
        -- apply parseNumber_length in En. cbn [List.length] in En. lia.
        -- intros g Hle. destruct (Hg g Hle) as (g' & -> & _).
           cbn [parseValue]. rewrite Es, E1, E2, E3, E4, E5, E6, En. reflexivity.
  - (* the elements of an array *)
    intros s vs r H. cbn [parseElements] in H.
    destruct (parseValue f s) as [[v r1]|] eqn:Ev; [|discriminate].
    destruct (IHv _ _ _ Ev) as [L1 G1].
    destruct (headIs 44 (skipWs r1)) eqn:E; [|destruct (headIs 93 (skipWs r1)) eqn:E'].
    + destruct (parseElements f (tl (skipWs r1))) as [[vs' r']|] eqn:Ee; [|discriminate].
      injection H as <- <-. destruct (IHe _ _ _ Ee) as [L2 G2].
      pose proof E as Et. apply headIs_tl in Et. pose proof (skipWs_length r1).
      split; [lia|].
      intros [|g'] Hle; [lia|]. cbn [parseElements].
      rewrite (G1 g') by lia. rewrite E, (G2 g') by lia. reflexivity.
    + injection H as <- <-.
      pose proof E' as Et. apply headIs_tl in Et. pose proof (skipWs_length r1).
      split; [lia|].
      intros [|g'] Hle; [lia|]. cbn [parseElements].
      rewrite (G1 g') by lia. rewrite E, E'. reflexivity.
    + discriminate.
  - (* the members of an object *)
    intros s ms r H. cbn [parseMembers] in H.
    destruct (headIs 34 (skipWs s)) eqn:E0; [|discriminate].
    destruct (parseChars (tl (skipWs s))) as [[k r1]|] eqn:Ec; [|discriminate].
    destruct (headIs 58 (skipWs r1)) eqn:E1; [|discriminate].
    destruct (parseValue f (tl (skipWs r1))) as [[v r3]|] eqn:Ev; [|discriminate].
    destruct (IHv _ _ _ Ev) as [L1 G1].
    pose proof (parseChars_length _ _ _ _ (le_n _) Ec) as Lc.
    pose proof E0 as Et0. apply headIs_tl in Et0.
    pose proof E1 as Et1. apply headIs_tl in Et1.
    pose proof (skipWs_length s). pose proof (skipWs_length r1).
    pose proof (skipWs_length r3).
    destruct (headIs 44 (skipWs r3)) eqn:E; [|destruct (headIs 125 (skipWs r3)) eqn:E'].
    + destruct (parseMembers f (tl (skipWs r3))) as [[ms' r']|] eqn:Em; [|discriminate].
      injection H as <- <-. destruct (IHm _ _ _ Em) as [L2 G2].
      pose proof E as Et. apply headIs_tl in Et.
      split; [lia|].
      intros [|g'] Hle; [lia|]. cbn [parseMembers].
      rewrite E0, Ec, E1. rewrite (G1 g') by lia. rewrite E, (G2 g') by lia.
      reflexivity.
    + injection H as <- <-.
      pose proof E' as Et. apply headIs_tl in Et.
      split; [lia|].
      intros [|g'] Hle; [lia|]. cbn [parseMembers].
      rewrite E0, Ec, E1. rewrite (G1 g') by lia. rewrite E, E'. reflexivity.
    + discriminate.
Qed.

(** The fuel of [JSON_parse] is enough: a value found with any fuel is found
    with it. *)
Lemma parse_fuel_enough (f : nat) (s : str) (v : json) (r : str) :
  parseValue f s = Some (v, r) ->
  parseValue (2 * List.length s + 2) s = Some (v, r).
Proof.
  intros H. destruct (parse_adequate f) as (Hv & _).
  destruct (Hv _ _ _ H) as [_ G]. apply G. lia.
Qed.

(** [JSON_parse] accepts exactly the texts that are, for some fuel, one
    value followed by white space only. *)
Lemma JSON_parse_any_fuel (s : str) (v : json) :
  JSON_parse s = Some v
  <-> exists f r, parseValue f s = Some (v, r) /\ skipWs r = [].
Proof.
  unfold JSON_parse. split.
  - intros H. destruct (parseValue (2 * List.length s + 2) s) as [[v' r]|] eqn:E;
      [|discriminate].
    destruct (skipWs r) eqn:Er; [|discriminate]. injection H as ->.
    exists (2 * List.length s + 2)%nat, r. auto.
  - intros (f & r & H & Hr). rewrite (parse_fuel_enough f s v r H), Hr. reflexivity.
Qed.

(** ** The bootstrap route: the body parses back *)

Lemma hexval_hexDigit (d : N) : d < 16 -> hexval (hexDigit d) = Some d.
Proof.
  intros H.
  assert (E : d = 0 \/ d = 1 \/ d = 2 \/ d = 3 \/ d = 4 \/ d = 5 \/ d = 6 \/ d = 7
              \/ d = 8 \/ d = 9 \/ d = 10 \/ d = 11 \/ d = 12 \/ d = 13 \/ d = 14
              \/ d = 15) by lia.
  repeat (destruct E as [->|E]; [reflexivity|]). subst d. reflexivity.
Qed.

Lemma hex4_unicodeEscape (c : N) :
  c < 65536 ->
  hex4 (hexDigit (c / 4096)) (hexDigit ((c / 256) mod 16))
       (hexDigit ((c / 16) mod 16)) (hexDigit (c mod 16)) = Some c.
Proof.
  intros H. unfold hex4.
  rewrite !hexval_hexDigit;
    try (apply N.mod_lt; discriminate);
    try (apply N.Div0.div_lt_upper_bound; lia).
  f_equal.
  pose proof (N.div_mod c 16 ltac:(discriminate)) as E1.
  pose proof (N.div_mod (c / 16) 16 ltac:(discriminate)) as E2.
  pose proof (N.div_mod (c / 16 / 16) 16 ltac:(discriminate)) as E3.
  rewrite !N.Div0.div_div in E2, E3. change (16 * 16) with 256 in E2, E3.
  rewrite !N.Div0.div_div in E3. change (256 * 16) with 4096 in E3.
  assert (E4 : (c / 4096) mod 16 = c / 4096).
  { apply N.mod_small. apply N.Div0.div_lt_upper_bound. lia. }
  lia.
Qed.

Lemma parseChars_plain (c : N) (rest : str) :
  (c =? 34) = false -> (c =? 92) = false -> (c <? 32) = false ->
  parseChars (c :: rest)
  = match parseChars rest with
    | Some (t, r') => Some (c :: t, r')
    | None => None
    end.
Proof. intros H1 H2 H3. cbn [parseChars]. rewrite H1, H2, H3. reflexivity. Qed.

Lemma surrogate_plain (c : N) :
  isLeadSurrogate c || isTrailSurrogate c = true ->
  (c =? 34) = false /\ (c =? 92) = false /\ (c <? 32) = false /\ c < 65536.
Proof.
  unfold isLeadSurrogate, isTrailSurrogate. intros H.
  apply orb_true_iff in H.
  repeat split;
    try (apply N.eqb_neq); try (apply N.ltb_ge);
    destruct H as [H|H]; apply andb_true_iff in H; destruct H as [H1 H2];
    apply N.leb_le in H1; apply N.leb_le in H2; lia.
Qed.

Lemma parseChars_quoteUnit (c : N) (rest t r : str) :
  parseChars rest = Some (t, r) ->
  parseChars (quoteUnit c ++ rest) = Some (c :: t, r).
Proof.
  intros H. unfold quoteUnit.
  repeat match goal with
         | |- context [if ?x =? ?k then _ else _] =>
             destruct (x =? k) eqn:?;
             [ match goal with E : (x =? k) = true |- _ =>
                 apply N.eqb_eq in E; subst x end;
               cbn [app parseChars N.eqb Pos.eqb]; rewrite H; reflexivity | ]
         end.
  destruct ((c <? 32) || isLeadSurrogate c || isTrailSurrogate c) eqn:E.
  - assert (Hc : c < 65536).
    { rewrite <- orb_assoc in E. apply orb_true_iff in E. destruct E as [E|E].
      - apply N.ltb_lt in E. lia.
      - apply surrogate_plain in E. tauto. }
    unfold unicodeEscape. cbn [app parseChars N.eqb Pos.eqb].
    rewrite (hex4_unicodeEscape c Hc), H. reflexivity.
  - apply orb_false_iff in E. destruct E as [E _].
    apply orb_false_iff in E. destruct E as [E _].
    cbn [app]. rewrite parseChars_plain by assumption. rewrite H. reflexivity.
Qed.

Lemma quoteChars_cons2 (c c' : N) (r : str) :
  quoteChars (c :: c' :: r)
  = if isLeadSurrogate c && isTrailSurrogate c'
    then c :: c' :: quoteChars r
    else quoteUnit c ++ quoteChars (c' :: r).
Proof. reflexivity. Qed.

Lemma parseChars_quoteChars_bounded (n : nat) :
  forall (s rest : str), (List.length s <= n)%nat ->
  parseChars (quoteChars s ++ 34 :: rest) = Some (s, rest).
Proof.
  induction n as [|n IH]; intros s rest Hlen.
  - destruct s; [reflexivity|simpl in Hlen; lia].
  - destruct s as [|c [|c' r']].
    + reflexivity.
    + cbn [quoteChars]. apply parseChars_quoteUnit. reflexivity.
    + rewrite quoteChars_cons2.
      destruct (isLeadSurrogate c && isTrailSurrogate c') eqn:E.
      * apply andb_true_iff in E. destruct E as [E1 E2].
        destruct (surrogate_plain c) as (A1 & A2 & A3 & _); [rewrite E1; reflexivity|].
        destruct (surrogate_plain c') as (B1 & B2 & B3 & _);
          [rewrite E2; apply orb_true_r|].
        cbn [app]. rewrite parseChars_plain by assumption.
        rewrite parseChars_plain by assumption.
        rewrite IH by (simpl in Hlen; lia). reflexivity.
      * rewrite <- app_assoc. apply parseChars_quoteUnit.
        apply IH. simpl in Hlen |- *. lia.
Qed.

(** A string quoted by [JSON.stringify] is read back by the parser. *)
Lemma parseChars_quoteChars (s rest : str) :
  parseChars (quoteChars s ++ 34 :: rest) = Some (s, rest).
Proof. apply (parseChars_quoteChars_bounded (List.length s)). reflexivity. Qed.

(** [JSON.parse(JSON.stringify({ key: value }))] *)
Lemma JSON_parse_stringify1 (key value : str) :
  JSON_parse (JSON_stringify1 key value) = Some (JObj [(key, JStr value)]).
Proof.
  unfold JSON_parse, JSON_stringify1, QuoteJSONString. cbn [app].
  match goal with
  | |- context [parseValue (2 * List.length (?a :: ?b :: ?r) + 2)%nat] =>
      replace (2 * List.length (a :: b :: r) + 2)%nat
        with (S (S (S (2 * List.length r + 3))))
        by (cbn [List.length]; lia)
  end.
  cbn [parseValue parseMembers skipWs isJsonWs headIs tl N.eqb Pos.eqb orb].
  rewrite <- app_assoc. cbn [app].
  rewrite parseChars_quoteChars.
  cbn [skipWs isJsonWs headIs tl N.eqb Pos.eqb orb parseValue].
  rewrite <- app_assoc. cbn [app].
  rewrite parseChars_quoteChars.
  reflexivity.
Qed.

(** C7.  When the external call creates a thread, [POST] answers with status
    200 and a JSON body that is an object whose member [threadId] is the
    thread's identifier; when the call throws, it answers with status 500
    and a JSON body that is an object with a member [error]. *)
Theorem POST_response :
  (forall id,
     status (POST (ThreadCreated id)) = 200
     /\ JSON_parse (body (POST (ThreadCreated id)))
        = Some (JObj [(lit "threadId", JStr id)]))
  /\ status (POST CreateThrows) = 500
  /\ (exists message,
        JSON_parse (body (POST CreateThrows)) = Some (JObj [(lit "error", JStr message)])).
Proof.
  repeat split.
  - apply JSON_parse_stringify1.
  - exists (lit "Error interno del servidor."). apply JSON_parse_stringify1.
Qed.

(** ** The bootstrap seen from the chat *)

Lemma createThread_created (st : ChatState) (id : str) :
  createThread st (Answer (POST (ThreadCreated id))) = Some (setThreadId (Some id) st).
Proof.
  unfold createThread. cbn [POST body]. rewrite JSON_parse_stringify1. reflexivity.
Qed.

Lemma createThread_failed (st : ChatState) :
  createThread st (Answer (POST CreateThrows)) = Some (setThreadId None st).
Proof.
  unfold createThread. cbn [POST body]. rewrite JSON_parse_stringify1. reflexivity.
Qed.

(** The identifier the service gave to the thread is the one the chat holds
    after [createThread], whatever characters it is made of: what
    [JSON.stringify] writes in the route, [res.json()] reads in the chat.
    From then on a call of [sendMessage] is stopped by a guard or posts its
    one request to that thread. *)
Theorem thread_id_round_trip (NumberToString : str -> str) (st : ChatState) (id : str) :
  createThread st (Answer (POST (ThreadCreated id))) = Some (setThreadId (Some id) st)
  /\ forall t displayUserMessage net,
      sendMessage NumberToString (setThreadId (Some id) st) t displayUserMessage net
      = (setThreadId (Some id) st, [])
      \/ snd (sendMessage NumberToString (setThreadId (Some id) st) t
                displayUserMessage net)
         = [mkRequest id t].
Proof.
  split; [apply createThread_created|].
  intros t d net. unfold sendMessage. destruct (isBlank t); [left; reflexivity|].
  cbn [threadId setThreadId]. destruct id; [left|right]; reflexivity.
Qed.


(** A bootstrap that fails is not noticed by the chat, which does not look
    at the status.  When the service throws and the route answers 500, and
    when the request itself fails, the mounted chat is in its initial
    state; every call of [sendMessage] from there returns at once and
    requests nothing. *)
Theorem failed_bootstrap_blocks (NumberToString : str -> str) :
  createThread initialChat (Answer (POST CreateThrows)) = Some initialChat
  /\ createThread initialChat NoAnswer = Some initialChat
  /\ forall t displayUserMessage net,
      sendMessage NumberToString initialChat t displayUserMessage net
      = (initialChat, []).
Proof.
  split; [apply createThread_failed|]. split; [reflexivity|].
  intros t d net. unfold sendMessage. destruct (isBlank t); reflexivity.
Qed.

(** The request carries the text as it was passed, not trimmed and with
    every character kept: the body of each request [sendMessage] issues
    parses back to an object whose one member [content] is that text; and
    the request goes to the thread the state holds. *)
Theorem request_body_round_trip (NumberToString : str -> str) (st : ChatState)
  (t : str) (displayUserMessage : bool) (net : FetchResult) (r : Request) :
  In r (snd (sendMessage NumberToString st t displayUserMessage net)) ->
  JSON_parse (requestBody r) = Some (JObj [(lit "content", JStr t)])
  /\ threadId st = Some (reqThread r).
Proof.
  unfold sendMessage. destruct (isBlank t); [intros []|].
  destruct (threadId st) as [[|c tid]|]; cbn [snd]; [intros []| |intros []].
  intros [<-|[]]. unfold requestBody. cbn [reqContent reqThread].
  split; [apply JSON_parse_stringify1|reflexivity].
Qed.

(** ** The examples of the specification, and instances of the theorems *)

(** The stream of the specification: a read with the delta [Hel], then a
    read with the delta [lo] and the terminator. *)
Example spec_stream :
  sendMessage tokenToString exampleChat (lit "hola") true
    (Body [ln (deltaLine "Hel"); ln (deltaLine "lo") ++ ln doneLine] EndOfBody)
  = (mkChat [] [mkMessage user (lit "hola"); mkMessage assistant (lit "Hello")]
       false (Some (lit "thread_1")) (lit "Hello"),
     [mkRequest (lit "thread_1") (lit "hola")]).
Proof. vm_compute. reflexivity. Qed.

Lemma deltas_accumulate_witness :
  (exists earlier,
     messages (fst (sendMessage tokenToString exampleChat (lit "hola") true
                      (Body [ln (deltaLine "Hel"); ln (deltaLine "lo") ++ ln doneLine]
                         EndOfBody)))
     = earlier ++ [mkMessage assistant (concat [lit "Hel"; lit "lo"])])
  /\ assistantMessageRef
       (fst (sendMessage tokenToString exampleChat (lit "hola") true
               (Body [ln (deltaLine "Hel"); ln (deltaLine "lo") ++ ln doneLine]
                  EndOfBody)))
     = concat [lit "Hel"; lit "lo"]
  /\ inputDisabled
       (fst (sendMessage tokenToString exampleChat (lit "hola") true
               (Body [ln (deltaLine "Hel"); ln (deltaLine "lo") ++ ln doneLine]
                  EndOfBody)))
     = false.
Proof.
  apply (deltas_accumulate tokenToString exampleChat (lit "hola") true
           116 (lit "hread_1")
           [ln (deltaLine "Hel"); ln (deltaLine "lo") ++ ln doneLine] EndOfBody
           [deltaLine "Hel"; deltaLine "lo"] [doneLine]
           [textPart "Hel"; textPart "lo"] [lit "Hel"; lit "lo"]).
  - vm_compute. reflexivity.
  - reflexivity.
  - vm_compute. reflexivity.
  - vm_compute. reflexivity.
  - vm_compute. reflexivity.
  - vm_compute. reflexivity.
  - discriminate.
Defined.

Lemma chunking_invariant_witness :
  messages (fst (sendMessage tokenToString exampleChat (lit "hola") true
                   (Body [ln (deltaLine "Hel"); ln (deltaLine "lo") ++ ln doneLine]
                      EndOfBody)))
  = messages (fst (sendMessage tokenToString exampleChat (lit "hola") true
                     (Body [concat [ln (deltaLine "Hel"); ln (deltaLine "lo") ++ ln doneLine]]
                        EndOfBody))).
Proof.
  apply (chunking_invariant tokenToString exampleChat (lit "hola") true
           [ln (deltaLine "Hel"); ln (deltaLine "lo") ++ ln doneLine] EndOfBody).
  vm_compute. reflexivity.
Defined.

(** C1 as stated fails.  A terminator and a content delta after it: read one
    by one, the delta is processed and the log gets an assistant message;
    read at once, the loop over the lines is left at the terminator and the
    delta is dropped. *)
Lemma chunking_counterexample :
  messages (fst (sendMessage tokenToString exampleChat (lit "hola") true
                   (Body [ln doneLine; ln (deltaLine "X")] EndOfBody)))
  = [mkMessage user (lit "hola"); mkMessage assistant (lit "X")]
  /\ messages (fst (sendMessage tokenToString exampleChat (lit "hola") true
                      (Body [concat [ln doneLine; ln (deltaLine "X")]] EndOfBody)))
     = [mkMessage user (lit "hola")].
Proof. split; vm_compute; reflexivity. Qed.

(** The same with a line the parser refuses in front of a content delta: read
    at once, the delta is processed; read one by one, the refused line is
    held in the buffer and glued in front of the delta, which is then
    refused too. *)
Example chunking_unparsed_line :
  messages (fst (sendMessage tokenToString exampleChat (lit "hola") true
                   (Body [concat [ln (lit "x"); ln (deltaLine "X")]] EndOfBody)))
  = [mkMessage user (lit "hola"); mkMessage assistant (lit "X")]
  /\ messages (fst (sendMessage tokenToString exampleChat (lit "hola") true
                      (Body [ln (lit "x"); ln (deltaLine "X")] EndOfBody)))
     = [mkMessage user (lit "hola")].
Proof. split; vm_compute; reflexivity. Qed.

(** C2 fails on the code.  A first exchange leaves the log with the user's
    message and the assistant's completed reply [Hello].  The stored payload
    is then sent without being displayed: the first delta of the new stream
    finds an assistant message at the end of the log and replaces it, so the
    completed reply is gone. *)
Theorem completed_reply_overwritten :
  let first :=
    fst (handleSubmit tokenToString exampleChat
           (Body [ln (deltaLine "Hello") ++ ln completedLine ++ ln doneLine] EndOfBody)) in
  messages first = [mkMessage user (lit "hola"); mkMessage assistant (lit "Hello")]
  /\ inputDisabled first = false
  /\ messages
       (fst (handleStartOrientation tokenToString first (Some (lit "perfil"))
               (Body [ln (deltaLine "X") ++ ln completedLine ++ ln doneLine] EndOfBody)))
     = [mkMessage user (lit "hola"); mkMessage assistant (lit "X")].
Proof. repeat split; vm_compute; reflexivity. Qed.

Lemma sendMessage_noop_witness :
  sendMessage tokenToString exampleChat (lit "   ") true
    (Body [ln (deltaLine "Hel")] EndOfBody)
  = (exampleChat, []).
Proof.
  apply (sendMessage_noop tokenToString exampleChat (lit "   ") true).
  left. reflexivity.
Defined.

Lemma terminator_enables_witness :
  inputDisabled
    (fst (processLines tokenToString (setInputDisabled true exampleChat) []
            [lit "{"; doneLine; deltaLine "X"])) = false
  /\ exists l1 d l2,
      [lit "{"; doneLine; deltaLine "X"] = l1 ++ d :: l2
      /\ existsb isTerminator l1 = false
      /\ isTerminator d = true
      /\ processLines tokenToString (setInputDisabled true exampleChat) []
           [lit "{"; doneLine; deltaLine "X"]
         = (setInputDisabled false
              (fst (processLines tokenToString (setInputDisabled true exampleChat) [] l1)),
            snd (processLines tokenToString (setInputDisabled true exampleChat) [] l1))
      /\ forall others,
          processLines tokenToString (setInputDisabled true exampleChat) []
            (l1 ++ d :: others)
          = processLines tokenToString (setInputDisabled true exampleChat) []
              [lit "{"; doneLine; deltaLine "X"].
Proof.
  apply (terminator_enables tokenToString (setInputDisabled true exampleChat) []
           [lit "{"; doneLine; deltaLine "X"]).
  vm_compute. reflexivity.
Defined.

Lemma sendMessage_enables_witness :
  snd (sendMessage tokenToString exampleChat (lit "hola") true
         (Body [ln (deltaLine "Hel")] ReadError))
  = [mkRequest (lit "thread_1") (lit "hola")]
  /\ inputDisabled
       (fst (sendMessage tokenToString exampleChat (lit "hola") true
               (Body [ln (deltaLine "Hel")] ReadError))) = false.
Proof.
  apply (sendMessage_enables tokenToString exampleChat (lit "hola") true
           (Body [ln (deltaLine "Hel")] ReadError) 116 (lit "hread_1")).
  - discriminate.
  - reflexivity.
  - vm_compute. reflexivity.
Defined.

Lemma sendMessage_begins_witness :
  sendMessage tokenToString exampleChat (lit "hola") true NoBody
  = (consume tokenToString (beginSend exampleChat (lit "hola") true) NoBody,
     [mkRequest (lit "thread_1") (lit "hola")])
  /\ messages (beginSend exampleChat (lit "hola") true)
     = messages exampleChat ++ [mkMessage user (lit "hola")]
  /\ userInput (beginSend exampleChat (lit "hola") true) = []
  /\ inputDisabled (beginSend exampleChat (lit "hola") true) = true.
Proof.
  apply (sendMessage_begins tokenToString exampleChat (lit "hola") true NoBody
           116 (lit "hread_1")).
  - vm_compute. reflexivity.
  - reflexivity.
Defined.

(** C8 as stated fails: a text of one space is not empty, and with a thread
    identifier at hand [sendMessage] still returns at once, the log, the
    input text and the flag untouched. *)
Lemma sendMessage_begins_counterexample :
  List.length (lit " ") = 1%nat
  /\ threadId exampleChat = Some (lit "thread_1")
  /\ sendMessage tokenToString exampleChat (lit " ") true
       (Body [ln (deltaLine "Hel")] EndOfBody)
     = (exampleChat, [])
  /\ messages exampleChat = [].
Proof. repeat split. Qed.

Lemma unparsed_line_witness :
  processLine tokenToString exampleChat (lit "rest of the last read")
    (dq "  data: {'event':'thread.mess ")
  = (exampleChat, dq "{'event':'thread.mess", false)
  /\ snd (processLines tokenToString exampleChat (lit "rest of the last read")
            [dq "  data: {'event':'thread.mess "; deltaLine "X"; []])
     = dq "{'event':'thread.mess".
Proof.
  destruct (unparsed_line_replaces_buffer tokenToString exampleChat
              (lit "rest of the last read") (dq "  data: {'event':'thread.mess ")
              [deltaLine "X"; []]) as [H1 H2].
  - vm_compute. discriminate.
  - vm_compute. reflexivity.
  - vm_compute. reflexivity.
  - split; [exact H1|]. apply H2. vm_compute. reflexivity.
Defined.

Lemma event_processing_witness :
  processEvent tokenToString exampleChat
    (JObj [(lit "event", JStr (lit "thread.run.created")); (lit "data", JNum (lit "7"))])
  = (exampleChat, Normal)
  /\ snd (processEvent tokenToString exampleChat
            (JObj [(lit "event", JStr (lit "thread.message.delta"));
                   (lit "data",
                    JObj [(lit "delta",
                           JObj [(lit "content", JArr [textPart "a"; JNull])])])]))
     = Normal
  /\ fragment tokenToString (JObj [(lit "text", JObj [])]) = Some []
  /\ processPart tokenToString exampleChat (JObj [(lit "text", JObj [])])
     = (setMessages (updateAssistant (assistantMessageRef exampleChat)) exampleChat,
        Normal).
Proof.
  destruct (event_processing tokenToString exampleChat) as (A & B & C).
  split; [|split].
  - apply (A (JObj [(lit "event", JStr (lit "thread.run.created"));
                    (lit "data", JNum (lit "7"))])).
    + discriminate.
    + reflexivity.
  - apply (B _ [textPart "a"; JNull] [lit "a"; []]); reflexivity.
  - apply C. reflexivity.
Defined.

(** C10 as stated fails.  The line [null] parses, and reading [event] of it
    raises a TypeError; the handler of the line takes it for a line the
    parser refused and puts it into the buffer.  And a content delta whose
    content is a string, not an array, is iterated character by character:
    the log gets an assistant message. *)
Lemma event_processing_counterexample :
  JSON_parse (lit "null") = Some JNull
  /\ processEvent tokenToString exampleChat JNull = (exampleChat, Threw)
  /\ processLine tokenToString exampleChat (lit "rest") (lit "null")
     = (exampleChat, lit "null", false)
  /\ match
       JSON_parse (dq "{'event':'thread.message.delta','data':{'delta':{'content':'ab'}}}")
     with
     | Some parsed =>
         deltaParts parsed = None
         /\ messages exampleChat = []
         /\ messages (fst (processEvent tokenToString exampleChat parsed))
            = [mkMessage assistant []]
     | None => False
     end.
Proof. repeat split. Qed.

Lemma sendMessage_request_enables_witness :
  inputDisabled
    (fst (sendMessage tokenToString exampleChat (lit "hola") false FetchRejects))
  = false.
Proof.
  apply (sendMessage_request_enables tokenToString exampleChat (lit "hola") false
           FetchRejects).
  vm_compute. discriminate.
Defined.

Lemma prefix_is_optional_witness :
  processLine tokenToString exampleChat [] (lit "data: " ++ lit "[DONE]")
  = processLine tokenToString exampleChat [] (lit "[DONE]").
Proof.
  apply (prefix_is_optional tokenToString exampleChat [] (lit "[DONE]")).
  - discriminate.
  - vm_compute. reflexivity.
  - vm_compute. reflexivity.
Defined.

Lemma crlf_line_ends_witness :
  sendMessage tokenToString exampleChat (lit "hola") true
    (Body [deltaLine "Hel" ++ [13; 10]; deltaLine "lo" ++ [13; 10] ++ doneLine ++ [13; 10]]
       EndOfBody)
  = sendMessage tokenToString exampleChat (lit "hola") true
      (Body [ln (deltaLine "Hel"); ln (deltaLine "lo") ++ ln doneLine] EndOfBody).
Proof.
  apply (crlf_line_ends tokenToString exampleChat (lit "hola") true
           [ln (deltaLine "Hel"); ln (deltaLine "lo") ++ ln doneLine]
           [deltaLine "Hel" ++ [13; 10];
            deltaLine "lo" ++ [13; 10] ++ doneLine ++ [13; 10]]
           EndOfBody EndOfBody).
  vm_compute. reflexivity.
Defined.

Lemma request_body_round_trip_witness :
  JSON_parse (requestBody (mkRequest (lit "thread_1") (dq " 'hola' ")))
  = Some (JObj [(lit "content", JStr (dq " 'hola' "))])
  /\ threadId exampleChat = Some (reqThread (mkRequest (lit "thread_1") (dq " 'hola' "))).
Proof.
  apply (request_body_round_trip tokenToString exampleChat (dq " 'hola' ") true
           NoBody (mkRequest (lit "thread_1") (dq " 'hola' "))).
  vm_compute. left. reflexivity.
Defined.

Lemma input_stays_disabled_witness :
  inputDisabled
    (fst (processLines tokenToString (setInputDisabled true exampleChat) []
            [deltaLine "Hel"; []; lit "{"; deltaLine "lo"]))
  = inputDisabled (setInputDisabled true exampleChat).
Proof.
  apply (input_stays_disabled tokenToString
           [deltaLine "Hel"; []; lit "{"; deltaLine "lo"]
           (setInputDisabled true exampleChat) []).
  vm_compute. reflexivity.
Defined.
